(** * Core15 survey dashboard: normalisation, aggregation, theming, filtering

    A shallow embedding of the data pipeline of [src/app.py] and the
    properties its specification states about it.

    Conventions of the embedding.
    - A Python [str] is a Rocq [string]; each character stands for one code
      point below 256, and [isspace], [lower] and the ordering used by
      [sorted] are Python's on that range.
    - A DataFrame cell is a [cell]: the two missing markers that [pd.isna]
      recognises, or a string.
    - A percentage is kept exactly, as an integer number of tenths of a
      percent (50.0 is [500]); [round1] is the round-half-to-even of
      [Series.round(1)] computed on the exact quotient.
    - [Series.value_counts] lists equal counts in order of first appearance
      (pandas leaves that order open; no property below depends on it,
      except the order of the rows displayed in the worked tables).
    - [st.sidebar.multiselect] is an input: the user's selection for each
      widget label.
    - Objects that the code copies or rebuilds ([df.copy()], boolean
      indexing) live in a store, so that leaving the input untouched is a
      statement about the store. *)

From Stdlib Require Import ZArith Lia Ascii String Permutation Sorted.
From stdpp Require Import base decidable option list strings gmap sorting.

Open Scope string_scope.
Open Scope list_scope.

(** ** Python string primitives *)

Module PyStr.

(** [str.isspace] on one code point below 256. *)
Definition isspace (c : ascii) : bool :=
  let n := N_of_ascii c in
  ((9 <=? n) && (n <=? 13) || (28 <=? n) && (n <=? 32)
   || (n =? 133) || (n =? 160))%N.

Fixpoint lstrip (s : string) : string :=
  match s with
  | EmptyString => EmptyString
  | String c s' => if isspace c then lstrip s' else s
  end.

Fixpoint rstrip (s : string) : string :=
  match s with
  | EmptyString => EmptyString
  | String c s' =>
      match rstrip s' with
      | EmptyString => if isspace c then EmptyString else String c EmptyString
      | r => String c r
      end
  end.

(** [s.strip()] *)
Definition strip (s : string) : string := rstrip (lstrip s).

(** [s.split(sep)] for a one-character separator. *)
Fixpoint split (sep : ascii) (s : string) : list string :=
  match s with
  | EmptyString => [EmptyString]
  | String c s' =>
      if Ascii.eqb c sep then EmptyString :: split sep s'
      else match split sep s' with
           | p :: ps => String c p :: ps
           | [] => [String c EmptyString]
           end
  end.

(** [sep.join(parts)] *)
Fixpoint join (sep : ascii) (parts : list string) : string :=
  match parts with
  | [] => EmptyString
  | [p] => p
  | p :: ps => p +:+ String sep (join sep ps)
  end.

Definition lower_char (c : ascii) : ascii :=
  let n := N_of_ascii c in
  if ((65 <=? n) && (n <=? 90)
      || (192 <=? n) && (n <=? 222) && negb (n =? 215))%N
  then ascii_of_N (n + 32) else c.

(** [s.lower()] *)
Fixpoint lower (s : string) : string :=
  match s with
  | EmptyString => EmptyString
  | String c s' => String (lower_char c) (lower s')
  end.

(** [sub in s] *)
Fixpoint contains (sub s : string) : bool :=
  String.prefix sub s ||
  match s with
  | EmptyString => false
  | String _ s' => contains sub s'
  end.

(** Truthiness of a string: [if s]. *)
Definition truthy (s : string) : bool := negb (String.eqb s "").

Definition all_space (s : string) : Prop :=
  Forall (fun c => isspace c = true) (list_ascii_of_string s).

(** The string does not start with white space. *)
Definition head_ok (s : string) : Prop :=
  match s with
  | EmptyString => True
  | String c _ => isspace c = false
  end.

End PyStr.

(** ** Stable sorting, as [sorted] and [sort_values] do *)

Section StableSort.
Context {A : Type} (le : A -> A -> bool).

(** [x] goes in front of the first element it is not greater than, so
    elements that compare equal keep their order. *)
Fixpoint insert_sorted (x : A) (l : list A) : list A :=
  match l with
  | [] => [x]
  | y :: l' => if le x y then x :: l else y :: insert_sorted x l'
  end.

Definition stable_sort (l : list A) : list A :=
  foldr insert_sorted [] l.
(** The order as a proposition. *)
Definition le_prop (x y : A) : Prop := le x y = true.

End StableSort.

(** [sorted(l)] on strings: ascending by code points. *)
Definition sorted (l : list string) : list string := stable_sort String.leb l.

(** ** Cells, series and data frames *)

Inductive cell : Type :=
| NaN
| PyNone
| Str (s : string).

#[global] Instance cell_eq_dec : EqDecision cell.
Proof. solve_decision. Defined.

(** [pd.isna(v)] *)
Definition isna (v : cell) : bool :=
  match v with
  | Str _ => false
  | _ => true
  end.

Definition notna (v : cell) : bool := negb (isna v).

(** [str(v)], also what [astype(str)] does to each element. *)
Definition py_str (v : cell) : string :=
  match v with
  | NaN => "nan"
  | PyNone => "None"
  | Str s => s
  end.

Definition series : Type := list cell.

(** [s.dropna()] *)
Definition dropna (s : series) : series := List.filter notna s.

(** [s.unique()]: distinct values in order of first appearance. *)
Fixpoint unique (s : series) : series :=
  match s with
  | [] => []
  | v :: s' => v :: List.filter (fun w => negb (bool_decide (w = v))) (unique s')
  end.

(** A table: the column labels and, for each respondent, the cells in the
    order of the labels.  A cell lacking in a short row reads as [NaN]. *)
Record DataFrame : Type := mkDataFrame {
  columns : list string;
  rows : list (list cell);
}.

Fixpoint index_of (col : string) (cols : list string) : option nat :=
  match cols with
  | [] => None
  | c :: cols' => if String.eqb c col then Some 0 else S <$> index_of col cols'
  end.

Definition cell_at (i : nat) (row : list cell) : cell := nth i row NaN.

(** [df[col]]; [None] stands for the [KeyError] of an absent column. *)
Definition get_column (df : DataFrame) (col : string) : option series :=
  i ← index_of col (columns df); Some (map (cell_at i) (rows df)).

(** ** Configuration *)

Definition DEMOGRAPHIC_COLS : list string := [
  "How many years of professional experience do you have?";
  "Which best describes your current role?";
  "What is your gender?"
].

Definition ALLOWED_items : list (string * list string) := [
  ("In the last 6 months, have you experienced any of the following?", [
     "Missed a promotion or opportunity";
     "Received critical feedback about leadership or influence";
     "Felt ineffective managing others";
     "Struggled with conflict or alignment";
     "Felt stuck despite strong technical skills";
     "None of the above" ]);
  ("Which of the following do you believe most contributed to these outcomes?", [
     "Gaps in my leadership or interpersonal skills";
     "Lack of clear feedback or expectations";
     "Organizational politics or bias";
     "Limited opportunity or timing";
     "I'm not sure what the real cause is";
     "Other (open text)" ]);
  ("Which of these best describes your current motivation to improve leadership skills?", [
     "I am actively trying to improve right now";
     "I know I should improve, but haven't taken action";
     "It matters, but not urgent";
     "Not a priority for me" ]);
  ("In the last 12 months, how much have you personally spent on professional or leadership development?", [
     "0";
     "<$100";
     "$100-$500";
     "$500-$1,500";
     "$1,500+" ]);
  ("What best explains the reason for your spending on leadership development over the past 12 months?", [
     "My employer typically pays for this";
     "I didn't actively look for solutions";
     "I looked, but didn't find anything credible";
     "I found options, but they felt too expensive";
     "I don't usually pay for self-development";
     "Other (open text)" ]);
  ("What have you personally paid for?", [
     "Online course";
     "Assessment or personality test";
     "Coaching (group or 1:1)";
     "Books or learning subscriptions";
     "Nothing paid personally" ]);
  ("If a leadership assessment + personalized training system clearly improved your effectiveness as a leader, what would feel like a reasonable monthly price?", [
     "0";
     "$10-$25";
     "$25-$50";
     "$50-$100";
     "$100+" ]);
  ("When it comes to leadership or professional development, I generally expect:", [
     "My Employer to pay";
     "A mix of employer and personal spending";
     "To pay myself" ]);
  ("Have you ever used a leadership or personality assessment that was NOT required by an employer?", [
     "Yes";
     "No" ]);
  ("Which sources do you take feedback on your capabilities from seriously?", [
     "Manager";
     "Peers";
     "Coach or Mentor";
     "Assessment tools";
     "Self-reflection only";
     "I generally distrust feedback" ]);
  ("Seeing my leadership skills benchmarked against others would feel:", [
     "Motivating";
     "Interesting but neutral";
     "Anxiety-inducing";
     "Not useful";
     "Actively discouraging" ]);
  ("Think about the last self-improvement effort you started on your own. What happened?", [
     "I stuck with it consistently";
     "I stayed engaged for a while, then dropped off";
     "I barely got started";
     "I avoid self-directed programs" ]);
  ("What most often causes you to stop engaging with self-development tools?", [
     "Time constraints";
     "Lack of accountability";
     "Content wasn't relevant";
     "Hard to see progress";
     "Lost motivation";
     "Cost";
     "Other" ]);
  ("What would most increase your likelihood of sticking with a leadership development system?", [
     "Clear progress tracking";
     "Personalized recommendations";
     "Social comparison or benchmarks";
     "External accountability (coach, group)";
     "Short, lightweight activities" ]);
  ("How many years of professional experience do you have?", [
     "0-3";
     "4-7";
     "8-15";
     "16+" ]);
  ("Which best describes your current role?", [
     "Individual Contributor";
     "People Manager";
     "Senior Leader";
     "Founder/Executive" ]);
  ("What is your gender?", [
     "Male";
     "Female";
     "Prefer not to say" ])
].

(** Allowed answers for each question. *)
Definition ALLOWED : gmap string (list string) := list_to_map ALLOWED_items.

(** Which questions are multi-select (comma-separated). *)
Definition MULTI_SELECT : gset string := list_to_set [
  "In the last 6 months, have you experienced any of the following?";
  "What have you personally paid for?";
  "Which sources do you take feedback on your capabilities from seriously?";
  "What most often causes you to stop engaging with self-development tools?"
].

Definition OTHER_LABEL : string := "other".

(** ** Helpers *)

Definition bucket_value (value : cell) (allowed : list string) : string :=
  if isna value then ""
  else
    let v := PyStr.strip (py_str value) in
    if negb (PyStr.truthy v) then ""
    else if bool_decide (v ∈ allowed) then v else OTHER_LABEL.

(** The comprehension [[p.strip() for p in raw.split(",") if p.strip()]]. *)
Definition split_parts (raw : string) : list string :=
  List.filter PyStr.truthy (map PyStr.strip (PyStr.split "," raw)).

Definition explode_multiselect (s : series) (allowed : list string) : list string :=
  let items :=
    foldl (fun (items : list string) (raw : string) =>
             match split_parts raw with
             | [] => items
             | parts =>
                 foldl (fun (items : list string) (p : string) =>
                          (items ++ [bucket_value (Str p) allowed])%list)
                       items parts
             end)
          [] (map py_str (dropna s)) in
  List.filter PyStr.truthy items.

(** The tokens of one cell's text. *)
Definition cell_tokens (allowed : list string) (raw : string) : list string :=
  map (fun p => bucket_value (Str p) allowed) (split_parts raw).

(** *** [Series.value_counts] *)

(** One more occurrence of [x] in a tally kept in order of first appearance. *)
Fixpoint tally_add (x : string) (acc : list (string * Z)) : list (string * Z) :=
  match acc with
  | [] => [(x, 1%Z)]
  | (y, n) :: acc' =>
      if String.eqb x y then (y, (n + 1)%Z) :: acc' else (y, n) :: tally_add x acc'
  end.

Definition tally (l : list string) : list (string * Z) :=
  foldl (fun acc x => tally_add x acc) [] l.

(** Descending by count; equal counts stay in order of first appearance. *)
Definition value_counts (l : list string) : list (string * Z) :=
  stable_sort (fun a b => (b.2 <=? a.2)%Z) (tally l).

(** How often [k] occurs in [l]. *)
Definition occurrences (k : string) (l : list string) : Z :=
  Z.of_nat (length (List.filter (String.eqb k) l)).

(** The count recorded for [k], or [0]. *)
Fixpoint tally_get (k : string) (acc : list (string * Z)) : Z :=
  match acc with
  | [] => 0
  | (y, n) :: acc' => if String.eqb k y then n else tally_get k acc'
  end.

(** [counts.sum()] *)
Definition counts_sum (counts : list (string * Z)) : Z :=
  foldr (fun kv acc => (kv.2 + acc)%Z) 0%Z counts.

(** Nearest integer to [num / den] for [0 < den], ties to even. *)
Definition round_half_even (num den : Z) : Z :=
  let q := (num / den)%Z in
  let r := (num mod den)%Z in
  if (2 * r <? den)%Z then q
  else if (den <? 2 * r)%Z then (q + 1)%Z
  else if Z.even q then q else (q + 1)%Z.

(** [(count / total * 100).round(1)], in tenths of a percent. *)
Definition round1 (count total : Z) : Z := round_half_even (count * 1000) total.

Record freq_row : Type := mkFreqRow {
  answer : string;
  count : Z;
  percentage : Z;
}.

#[global] Instance freq_row_eq_dec : EqDecision freq_row.
Proof. solve_decision. Defined.

(** The tail shared by both branches of [frequency_for_question]: from the
    kept tokens [s] to the output frame. *)
Definition frequency_frame (s : list string) : list freq_row :=
  let counts := value_counts s in
  let total := counts_sum counts in
  let percentages :=
    if (0 <? total)%Z then map (fun kv => round1 kv.2 total) counts
    else map (fun kv => (kv.2 * 0)%Z) counts in
  zip_with (fun kv p => mkFreqRow kv.1 kv.2 p) counts percentages.

(** The tokens that [frequency_for_question] counts, for given catalogs. *)
Definition question_tokens (allowed_map : gmap string (list string))
    (multi : gset string) (df : DataFrame) (col : string) : option (list string) :=
  let allowed := allowed_map !! col in
  if bool_decide (col ∈ multi) then
    match allowed with
    | None => s ← get_column df col; Some (explode_multiselect s [])
    | Some allowed => s ← get_column df col; Some (explode_multiselect s allowed)
    end
  else
    s ← get_column df col;
    match allowed with
    | Some allowed =>
        let s := map (fun v => if notna v then bucket_value v allowed else "") s in
        Some (List.filter PyStr.truthy s)
    | None =>
        let s := map (fun v => if notna v then PyStr.strip (py_str v) else "") s in
        Some (List.filter PyStr.truthy s)
    end.

Definition frequency_for_question_with (allowed_map : gmap string (list string))
    (multi : gset string) (df : DataFrame) (col : string) : option (list freq_row) :=
  frequency_frame <$> question_tokens allowed_map multi df col.

(** [frequency_for_question(df, col)] with the module's catalogs. *)
Definition frequency_for_question (df : DataFrame) (col : string) : option (list freq_row) :=
  frequency_for_question_with ALLOWED MULTI_SELECT df col.

(** The totals of the count and percentage columns. *)
Definition sum_counts (table : list freq_row) : Z := foldr Z.add 0%Z (map count table).

(** The percentage column, for a given total. *)
Definition percentage_of (total : Z) (n : Z) : Z :=
  if (0 <? total)%Z then round1 n total else (n * 0)%Z.

(** ** Free-text theming *)

(** A Python [dict] from theme name to a list of responses, in insertion
    order. *)
Definition theme_dict : Type := list (string * list string).

(** The local [themes] of [create_themes_for_frustrations]. *)
Definition THEMES : theme_dict := [
  ("Time constraints",
    ["time"; "busy"; "schedule"; "hours"; "workload"; "overwhelmed"; "no time";
     "don't have time"; "lack of time"]);
  ("Lack of feedback/guidance",
    ["feedback"; "guidance"; "mentor"; "coach"; "direction"; "advice"; "support";
     "help"; "don't know how"; "unsure how"]);
  ("Cost/money",
    ["cost"; "expensive"; "money"; "price"; "afford"; "budget"; "financial"; "pay";
     "paid"]);
  ("Not seeing progress/results",
    ["progress"; "results"; "improvement"; "change"; "see results"; "measurable";
     "outcomes"; "impact"]);
  ("Lack of accountability/motivation",
    ["accountability"; "motivation"; "discipline"; "consistency"; "stick with";
     "follow through"; "commitment"]);
  ("Content not relevant/applicable",
    ["relevant"; "applicable"; "practical"; "real-world"; "useful"; "actionable";
     "relatable"]);
  ("Information overload/too much",
    ["overwhelming"; "too much"; "information overload"; "complex"; "complicated";
     "confusing"]);
  ("Lack of resources/tools",
    ["resources"; "tools"; "access"; "available"; "options"; "programs";
     "platforms"]);
  ("Organizational/systemic barriers",
    ["company"; "organization"; "employer"; "system"; "culture"; "politics";
     "structure"; "management"]);
  ("Self-doubt/confidence",
    ["confidence"; "self-doubt"; "imposter"; "worthy"; "capable"; "qualified";
     "deserve"])
].

Definition OVERFLOW_THEME : string := "Other/Uncategorized".

(** [d[key].append(x)]; an absent key is Python's [KeyError], which the
    caller never meets since it only uses keys of [d]. *)
Fixpoint dict_append (d : theme_dict) (key x : string) : theme_dict :=
  match d with
  | [] => []
  | (k, v) :: d' =>
      if String.eqb k key then (k, (v ++ [x])%list) :: d'
      else (k, v) :: dict_append d' key x
  end.

(** [d[key] = v] *)
Fixpoint dict_set (d : theme_dict) (key : string) (v : list string) : theme_dict :=
  match d with
  | [] => [(key, v)]
  | (k, w) :: d' =>
      if String.eqb k key then (k, v) :: d' else (k, w) :: dict_set d' key v
  end.

(** [any(keyword in response_lower for keyword in keywords)] *)
Definition any_keyword (keywords : list string) (response_lower : string) : bool :=
  existsb (fun keyword => PyStr.contains keyword response_lower) keywords.

(** The inner loop over [themes.items()], with its [break]; the boolean is
    [categorized_flag]. *)
Fixpoint scan_themes (items : theme_dict) (response response_lower : string)
    (categorized : theme_dict) : theme_dict * bool :=
  match items with
  | [] => (categorized, false)
  | (theme, keywords) :: items' =>
      if any_keyword keywords response_lower
      then (dict_append categorized theme response, true)
      else scan_themes items' response response_lower categorized
  end.

Definition create_themes_with (themes : theme_dict) (responses : list string) : theme_dict :=
  match responses with
  | [] => []
  | _ =>
      let categorized : theme_dict := map (fun kv => (kv.1, [])) themes in
      let '(categorized, uncategorized) :=
        foldl (fun (st : theme_dict * list string) (response : string) =>
                 let response_lower := PyStr.lower response in
                 let '(categorized, categorized_flag) :=
                   scan_themes themes response response_lower st.1 in
                 if negb categorized_flag
                 then (categorized, (st.2 ++ [response])%list)
                 else (categorized, st.2))
              (categorized, []) responses in
      let result := List.filter (fun kv => negb (bool_decide (kv.2 = []))) categorized in
      match uncategorized with
      | [] => result
      | _ => dict_set result OVERFLOW_THEME uncategorized
      end
  end.

Definition create_themes_for_frustrations (responses : list string) : theme_dict :=
  create_themes_with THEMES responses.

(** *** The theming rule in the specification's words *)

(** A keyword set matches a response when some keyword occurs in it as a
    substring, letter case ignored on both sides. *)
Definition matches_ignoring_case (keywords : list string) (response : string) : bool :=
  existsb (fun keyword => PyStr.contains (PyStr.lower keyword) (PyStr.lower response))
          keywords.

(** The first theme, in the catalog's declared order, whose keyword set
    matches; the overflow theme when none does. *)
Definition spec_theme_of (themes : theme_dict) (response : string) : string :=
  match List.find (fun kv => matches_ignoring_case kv.2 response) themes with
  | Some kv => kv.1
  | None => OVERFLOW_THEME
  end.

(** The grouping the specification describes: every theme with the
    responses assigned to it, themes without responses left out. *)
Definition spec_grouping (themes : theme_dict) (responses : list string) : theme_dict :=
  List.filter (fun kv => negb (bool_decide (kv.2 = [])))
    (map (fun t => (t, List.filter (fun r => String.eqb (spec_theme_of themes r) t) responses))
         (map fst themes ++ [OVERFLOW_THEME])%list).

(** A group that holds at least one response. *)
Definition nonempty_group (kv : string * list string) : bool :=
  negb (bool_decide (kv.2 = [])).

(** The theme whose keywords are the first to match, if any. *)
Definition first_hit (themes : theme_dict) (response : string) : option string :=
  fst <$> List.find (fun kv => matches_ignoring_case kv.2 response) themes.

(** The two accumulators after the responses [seen] have been handled. *)
Definition theming_state (themes : theme_dict) (seen : list string) : theme_dict * list string :=
  (map (fun k => (k, List.filter (fun r => bool_decide (first_hit themes r = Some k)) seen))
       (map fst themes),
   List.filter (fun r => bool_decide (first_hit themes r = None)) seen).

(** The body of the loop over the responses. *)
Definition theming_step (themes : theme_dict) (st : theme_dict * list string) (response : string)
    : theme_dict * list string :=
  let response_lower := PyStr.lower response in
  let '(categorized, categorized_flag) :=
    scan_themes themes response response_lower st.1 in
  if negb categorized_flag
  then (categorized, st.2 ++ [response])
  else (categorized, st.2).

(** The responses that the classifier [g] sends to [t]. *)
Definition members (g : string → string) (t : string) (l : list string) : list string :=
  List.filter (fun r => String.eqb (g r) t) l.

(** The non-empty groups of [l] under [g], in the order of [names]. *)
Definition grouping (g : string → string) (names l : list string) : theme_dict :=
  List.filter nonempty_group (map (fun t => (t, members g t l)) names).

(** The names a group can carry: the catalog's, then the overflow theme. *)
Definition THEME_NAMES : list string := map fst THEMES ++ [OVERFLOW_THEME].

(** ** Demographic filters *)

(** Objects live in a store and are named by their address; [df.copy()]
    and boolean indexing both build a new object. *)
Definition ref : Type := nat.
Definition store : Type := list DataFrame.

Definition alloc (d : DataFrame) (h : store) : ref * store :=
  (length h, (h ++ [d])%list).

(** The options offered by the widget of one demographic column. *)
Definition sidebar_options (allowed : option (list string)) (s : series) : list string :=
  let options := sorted (map py_str (unique (dropna s))) in
  match allowed with
  | Some ((_ :: _) as allowed) =>
      let weird := List.filter (fun o => negb (bool_decide (o ∈ allowed))) options in
      (allowed ++ sorted weird)%list
  | _ => options
  end.

(** [filtered[filtered[col].astype(str).isin(selected)]], [col] being the
    column at position [i]. *)
Definition select_rows (df : DataFrame) (i : nat) (selected : list string) : DataFrame :=
  mkDataFrame (columns df)
    (List.filter (fun row => bool_decide (py_str (cell_at i row) ∈ selected)) (rows df)).

(** What the sidebar showed: each widget's label and options. *)
Definition widgets : Type := list (string * list string).

Record filter_state : Type := mkFilterState {
  filtered : ref;
  heap : store;
  shown : widgets;
}.

(** One turn of the loop over [DEMOGRAPHIC_COLS]. *)
Definition filter_step (selection : string -> list string) (st : filter_state)
    (col : string) : option filter_state :=
  df ← heap st !! filtered st;
  match index_of col (columns df) with
  | None => Some st
  | Some i =>
      let allowed := ALLOWED !! col in
      let options := sidebar_options allowed (map (cell_at i) (rows df)) in
      let selected := selection col in
      let shown' := (shown st ++ [(col, options)])%list in
      match selected with
      | [] => Some (mkFilterState (filtered st) (heap st) shown')
      | _ =>
          let '(r, h') := alloc (select_rows df i selected) (heap st) in
          Some (mkFilterState r h' shown')
      end
  end.

Definition apply_demographic_filters (selection : string -> list string)
    (df : ref) (h : store) : option filter_state :=
  d ← h !! df;
  let '(r, h') := alloc d h in
  foldl (fun st col => st ← st; filter_step selection st col)
        (Some (mkFilterState r h' [])) DEMOGRAPHIC_COLS.

(** *** The filtering rule in the specification's words *)

(** A row survives when, for every demographic question that is a column of
    the table and has a non-empty accepted set, the row's value, as a string,
    is in that set. *)
Definition survives (selection : string -> list string) (cols : list string)
    (row : list cell) : Prop :=
  ∀ col i, col ∈ DEMOGRAPHIC_COLS → index_of col cols = Some i →
           selection col ≠ [] → py_str (cell_at i row) ∈ selection col.

(** The test of one demographic question on one row. *)
Definition col_passes (selection : string -> list string) (cols : list string)
    (row : list cell) (col : string) : bool :=
  match index_of col cols with
  | None => true
  | Some i =>
      match selection col with
      | [] => true
      | selected => bool_decide (py_str (cell_at i row) ∈ selected)
      end
  end.

Definition survivesb (selection : string -> list string) (cols : list string)
    (row : list cell) : bool :=
  forallb (col_passes selection cols row) DEMOGRAPHIC_COLS.

(** [tighter] relates a constraint mapping to one with more constraints:
    each question is either unconstrained in the first, or constrained in
    both with the second accepted set inside the first. *)
Definition tighter (sel sel' : string -> list string) : Prop :=
  ∀ col, sel col = [] ∨ (sel' col ≠ [] ∧ sel' col ⊆ sel col).

(** [selection] with the accepted set of [col] replaced by [accepted]. *)
Definition constrain (selection : string → list string) (col : string)
    (accepted : list string) : string → list string :=
  fun c => if String.eqb c col then accepted else selection c.

(** The row count of the filtered collection, the input being the only
    object of the store. *)
Definition filtered_count (selection : string → list string) (df : DataFrame)
    : option nat :=
  st ← apply_demographic_filters selection 0 [df];
  df' ← heap st !! filtered st;
  Some (length (rows df')).

(** ** Worked examples *)

Definition assessment_question : string :=
  "Have you ever used a leadership or personality assessment that was NOT required by an employer?".

Definition feedback_question : string :=
  "Which sources do you take feedback on your capabilities from seriously?".

(** Five respondents: two "Yes", one "No", one blank, one "Maybe". *)
Definition assessment_frame : DataFrame :=
  mkDataFrame ["What is your Prolific ID?"; assessment_question]
    [ [Str "p1"; Str "Yes"]; [Str "p2"; Str "Yes"]; [Str "p3"; Str "No"];
      [Str "p4"; Str ""]; [Str "p5"; Str "Maybe"] ].

(** One respondent who ticked all six feedback sources. *)
Definition six_sources_frame : DataFrame :=
  mkDataFrame [feedback_question]
    [ [Str "Manager, Peers, Coach or Mentor, Assessment tools, Self-reflection only, I generally distrust feedback"] ].



Definition gender_question : string := "What is your gender?".

(** Two respondents: one "Male", one "Female". *)
Definition two_genders_frame : DataFrame :=
  mkDataFrame ["What is your Prolific ID?"; gender_question]
    [ [Str "p1"; Str "Male"]; [Str "p2"; Str "Female"] ].

Definition only_male : string → list string :=
  constrain (fun _ => []) gender_question ["Male"].

Definition male_rows_frame : DataFrame :=
  mkDataFrame ["What is your Prolific ID?"; gender_question] [ [Str "p1"; Str "Male"] ].

(** A column that only ever reads "Male". *)
Definition male_only_frame : DataFrame :=
  mkDataFrame ["What is your Prolific ID?"; gender_question]
    [ [Str "p1"; Str "Male"]; [Str "p2"; Str "Male"] ].

(** ** The page *)

Definition PROLIFIC_COL : string := "What is your Prolific ID?".

Definition FRUSTRATION_QUESTION : string :=
  "What frustrates you most about trying to improve as a leader?".

(** [get_all_responses(df, col)]; [None] stands for the [KeyError] of an
    absent column. *)
Definition get_all_responses (df : DataFrame) (col : string) : option (list string) :=
  s ← get_column df col;
  Some (foldl (fun (responses : list string) (value : cell) =>
                 if isna value then responses
                 else
                   let v := PyStr.strip (py_str value) in
                   if PyStr.truthy v then responses ++ [v] else responses)
              [] (dropna s)).

(** [row[i] = v]; a row too short is filled with [NaN], as [cell_at] reads
    it. *)
Fixpoint set_cell (i : nat) (v : cell) (row : list cell) : list cell :=
  match i, row with
  | 0, [] => [v]
  | 0, _ :: row' => v :: row'
  | S i', [] => NaN :: set_cell i' v []
  | S i', c :: row' => c :: set_cell i' v row'
  end.

(** [df[col] = df[col].astype(str)] *)
Definition astype_str_column (df : DataFrame) (col : string) : DataFrame :=
  match index_of col (columns df) with
  | None => df
  | Some i =>
      mkDataFrame (columns df)
        (map (fun row => set_cell i (Str (py_str (cell_at i row))) row) (rows df))
  end.

(** The rows of [themes_df]: each theme with its share of all responses,
    in tenths of a percent. *)
Definition theme_data (themes : theme_dict) (total_responses : nat) : list (string * Z) :=
  map (fun kv : string * list string =>
         let count := length kv.2 in
         (kv.1,
          if (0 <? total_responses)%nat
          then round1 (Z.of_nat count) (Z.of_nat total_responses)
          else 0%Z))
      themes.

(** What the page shows, call by call; the calls that print a fixed text
    only (title, sub-headers, divider) are left out. *)
Inductive element : Type :=
| Metric (label : string) (value : nat)
| Heading (col : string)
| ThemesTable (rows : list (string * Z))
| ResponsesTable (responses : list string)
| TotalResponses (n : nat)
| NoResponsesInfo
| BarChart (freq : list freq_row).

(** The body of the loop over [question_cols]. *)
Definition render_question (filtered : DataFrame) (col : string) : option (list element) :=
  if negb (bool_decide (col ∈ columns filtered)) then Some []
  else if String.eqb col FRUSTRATION_QUESTION then
    all_responses ← get_all_responses filtered col;
    match all_responses with
    | [] => Some [Heading col; NoResponsesInfo]
    | _ =>
        let themes := create_themes_for_frustrations all_responses in
        let total_responses := length all_responses in
        let themes_table :=
          match themes with
          | [] => []
          | _ => [ThemesTable (theme_data themes total_responses)]
          end in
        Some ([Heading col] ++ themes_table
              ++ [ResponsesTable all_responses; TotalResponses (length all_responses)])
    end
  else
    freq ← frequency_for_question filtered col;
    match freq with
    | [] => Some [Heading col; NoResponsesInfo]
    | _ => Some [Heading col; BarChart freq]
    end.

(** The questions to chart: every column but the respondent identifier and
    the demographic questions. *)
Definition question_cols (df : DataFrame) : list string :=
  List.filter (fun c => negb (String.eqb c PROLIFIC_COL)
                        && negb (bool_decide (c ∈ DEMOGRAPHIC_COLS)))
              (columns df).

(** The script from the loaded frame on: the frame sits at address 0 of
    the store. *)
Definition run_app (selection : string → list string) (loaded : DataFrame)
    : option (widgets * list element) :=
  let df :=
    if bool_decide (PROLIFIC_COL ∈ columns loaded)
    then astype_str_column loaded PROLIFIC_COL else loaded in
  st ← apply_demographic_filters selection 0 [df];
  df ← heap st !! 0;
  filtered ← heap st !! filtered st;
  sections ← mapM (render_question filtered) (question_cols df);
  Some (shown st,
        [Metric "Total responses" (length (rows df));
         Metric "Filtered responses" (length (rows filtered))]
        ++ concat sections).

(** The questions that got a heading on the page, in order. *)
Definition headings (page : list element) : list string :=
  omap (fun e => match e with Heading col => Some col | _ => None end) page.


(** A frame with the identifier, one demographic question, one catalogued
    question and the frustration question. *)
Definition small_survey : DataFrame :=
  mkDataFrame
    [PROLIFIC_COL; gender_question; assessment_question; FRUSTRATION_QUESTION]
    [ [Str "p1"; Str "Male"; Str "Yes"; Str "No time at all"];
      [Str "p2"; Str "Female"; Str "No"; Str " too expensive "];
      [Str "p3"; Str "Male"; Str "Maybe"; Str ""];
      [Str "p4"; NaN; Str "Yes"; Str "great program"] ].

(** * Properties *)

(** ** Facts about the string primitives *)

Module PyStrFacts.
Import PyStr.

Lemma truthy_true s : truthy s = true ↔ s ≠ "".
Proof.
  unfold truthy. destruct (String.eqb_spec s ""); simpl; split; congruence.
Qed.

Lemma truthy_false s : truthy s = false ↔ s = "".
Proof.
  unfold truthy. destruct (String.eqb_spec s ""); simpl; split; congruence.
Qed.

Lemma app_nil_l s : "" +:+ s = s.
Proof. reflexivity. Qed.

Lemma app_cons c s t : String c s +:+ t = String c (s +:+ t).
Proof. reflexivity. Qed.

Lemma all_space_nil : all_space "".
Proof. constructor. Qed.

Lemma all_space_cons c s : all_space (String c s) ↔ isspace c = true ∧ all_space s.
Proof.
  unfold all_space. simpl.
  apply (Forall_cons (fun c => isspace c = true)).
Qed.

Lemma all_space_app s t : all_space (s +:+ t) ↔ all_space s ∧ all_space t.
Proof.
  induction s as [|c s IH]; rewrite ?app_nil_l, ?app_cons.
  - split; [intros H; split; [apply all_space_nil | exact H] | tauto].
  - rewrite !all_space_cons, IH. tauto.
Qed.

Lemma lstrip_head_ok s : head_ok (lstrip s).
Proof.
  induction s as [|c s IH]; simpl; [exact I|].
  destruct (isspace c) eqn:E; [exact IH | exact E].
Qed.

Lemma lstrip_fixed s : head_ok s → lstrip s = s.
Proof. destruct s as [|c s]; simpl; [done|]. by intros ->. Qed.

Lemma lstrip_split s : ∃ l, s = l +:+ lstrip s ∧ all_space l.
Proof.
  induction s as [|c s (l & Hs & Hl)]; simpl.
  - exists "". split; [done | apply all_space_nil].
  - destruct (isspace c) eqn:E.
    + exists (String c l). rewrite app_cons. split; [by rewrite <- Hs|].
      by apply all_space_cons.
    + exists "". split; [done | apply all_space_nil].
Qed.

Lemma rstrip_empty s : rstrip s = "" ↔ all_space s.
Proof.
  induction s as [|c s IH]; simpl.
  - split; [intros _; apply all_space_nil | done].
  - rewrite all_space_cons. destruct (rstrip s) as [|d r] eqn:E.
    + destruct (isspace c); split; try done.
      * intros _. split; [done | by apply IH].
      * intros [? _]. done.
    + split; [done|]. intros [_ H]. apply IH in H. done.
Qed.

Lemma rstrip_split s : ∃ r, s = rstrip s +:+ r ∧ all_space r.
Proof.
  induction s as [|c s (r & Hs & Hr)]; simpl.
  - exists "". split; [done | apply all_space_nil].
  - destruct (rstrip s) as [|d t] eqn:E.
    + rewrite app_nil_l in Hs. subst r. destruct (isspace c) eqn:Ec.
      * exists (String c s). split; [done | by apply all_space_cons].
      * exists s. done.
    + exists r. rewrite app_cons. split; [by rewrite <- Hs | done].
Qed.

Lemma rstrip_head_ok s : head_ok s → head_ok (rstrip s).
Proof.
  destruct s as [|c s]; simpl; [done|]. intros Hc.
  destruct (rstrip s); [by rewrite Hc | done].
Qed.

Lemma rstrip_idemp s : rstrip (rstrip s) = rstrip s.
Proof.
  induction s as [|c s IH]; simpl; [done|].
  destruct (rstrip s) as [|d r] eqn:E.
  - destruct (isspace c) eqn:Ec; simpl; [done | by rewrite Ec].
  - change (rstrip (String c (String d r))) with
      (match rstrip (String d r) with
       | EmptyString => if isspace c then EmptyString else String c EmptyString
       | r0 => String c r0
       end).
    by rewrite IH.
Qed.

(** The last character of a right-stripped string is not a space. *)
Lemma rstrip_no_trailing s t c :
  rstrip s = t +:+ String c "" → isspace c = false.
Proof.
  revert t. induction s as [|a s IH]; simpl; intros t.
  - destruct t; discriminate.
  - destruct (rstrip s) as [|d r] eqn:E.
    + destruct (isspace a) eqn:Ea; [destruct t; discriminate|].
      destruct t as [|b t]; rewrite ?app_nil_l, ?app_cons; [congruence|].
      destruct t; discriminate.
    + destruct t as [|b t]; rewrite ?app_nil_l, ?app_cons; [discriminate|].
      intros [= _ Ht]. by apply (IH t).
Qed.

Lemma strip_empty s : strip s = "" ↔ all_space s.
Proof.
  unfold strip. rewrite rstrip_empty.
  destruct (lstrip_split s) as (l & Hs & Hl). split; intros H.
  - rewrite Hs. by apply all_space_app.
  - rewrite Hs in H. by apply all_space_app in H as [_ ?].
Qed.

Lemma strip_idemp s : strip (strip s) = strip s.
Proof.
  unfold strip.
  rewrite (lstrip_fixed (rstrip (lstrip s))).
  - apply rstrip_idemp.
  - apply rstrip_head_ok, lstrip_head_ok.
Qed.

(** What trimming is: the string is its trimmed value between two runs of
    white space, and the trimmed value neither starts nor ends with one. *)
Lemma strip_spec s :
  (∃ l r, s = l +:+ strip s +:+ r ∧ all_space l ∧ all_space r)
  ∧ head_ok (strip s)
  ∧ (∀ t c, strip s = t +:+ String c "" → isspace c = false).
Proof.
  split; [|split].
  - destruct (lstrip_split s) as (l & Hs & Hl).
    destruct (rstrip_split (lstrip s)) as (r & Hr & Hrs).
    exists l, r. unfold strip. by rewrite <- Hr, <- Hs.
  - apply rstrip_head_ok, lstrip_head_ok.
  - intros t c. apply rstrip_no_trailing.
Qed.

Lemma split_nonempty sep s : split sep s ≠ [].
Proof.
  destruct s as [|c s]; simpl; [done|].
  destruct (Ascii.eqb c sep); [done|]. by destruct (split sep s).
Qed.

Lemma join_split sep s : join sep (split sep s) = s.
Proof.
  induction s as [|c s IH]; simpl; [done|].
  destruct (Ascii.eqb_spec c sep) as [->|Hne].
  - pose proof (split_nonempty sep s).
    destruct (split sep s) as [|p ps] eqn:E; [done|].
    change (join sep ("" :: p :: ps)) with (String sep (join sep (p :: ps))).
    by rewrite IH.
  - destruct (split sep s) as [|p ps] eqn:E; [by destruct (split_nonempty sep s)|].
    destruct ps as [|q ps].
    + simpl in *. by rewrite IH.
    + change (join sep (String c p :: q :: ps))
        with (String c (p +:+ String sep (join sep (q :: ps)))).
      change (join sep (p :: q :: ps))
        with (p +:+ String sep (join sep (q :: ps))) in IH.
      by rewrite IH.
Qed.

Lemma split_no_sep sep s p :
  p ∈ split sep s → sep ∉ list_ascii_of_string p.
Proof.
  revert p. induction s as [|c s IH]; simpl; intros p.
  - rewrite list_elem_of_singleton. intros ->. simpl. apply not_elem_of_nil.
  - destruct (Ascii.eqb_spec c sep) as [->|Hne].
    + rewrite elem_of_cons. intros [->|H]; [apply not_elem_of_nil | by apply IH].
    + destruct (split sep s) as [|q qs] eqn:E.
      * rewrite list_elem_of_singleton. intros ->. simpl.
        rewrite elem_of_cons. intros [?|H]; [done | by apply not_elem_of_nil in H].
      * rewrite elem_of_cons. intros [->|H].
        -- simpl. rewrite elem_of_cons. intros [?|H]; [done|].
           revert H. apply IH. apply list_elem_of_here.
        -- apply IH. by apply list_elem_of_further.
Qed.

Lemma prefix_app p s : String.prefix p s = true ↔ ∃ b, s = p +:+ b.
Proof.
  revert s. induction p as [|a p IH]; intros s.
  - destruct s; simpl; split; eauto.
  - destruct s as [|c s]; simpl.
    + split; [done | intros [b ?]; done].
    + destruct (ascii_dec a c) as [->|Hne].
      * rewrite IH. split; intros [b Hb]; exists b;
          rewrite ?app_cons in *; congruence.
      * split; [done | intros [b Hb]; rewrite app_cons in Hb; congruence].
Qed.

(** [sub in s] holds exactly when [sub] occurs somewhere inside [s]. *)
Lemma contains_spec sub s :
  contains sub s = true ↔ ∃ a b, s = a +:+ sub +:+ b.
Proof.
  induction s as [|c s IH].
  - cbn [contains]. rewrite orb_false_r, prefix_app. split.
    + intros [b Hb]. by exists "", b.
    + intros (a & b & H). destruct a; [by exists b|discriminate].
  - cbn [contains]. rewrite orb_true_iff, prefix_app, IH. split.
    + intros [[b Hb]|(a & b & H)]; [by exists "", b|].
      exists (String c a), b. rewrite app_cons. by rewrite H.
    + intros (a & b & H). destruct a as [|d a]; [left; by exists b|].
      right. exists a, b. rewrite app_cons in H. congruence.
Qed.

Lemma lower_char_idemp c : lower_char (lower_char c) = lower_char c.
Proof. destruct c as [[] [] [] [] [] [] [] []]; reflexivity. Qed.

Lemma lower_idemp s : lower (lower s) = lower s.
Proof. induction s as [|c s IH]; simpl; [done|]. by rewrite lower_char_idemp, IH. Qed.

End PyStrFacts.

(** ** Facts about sorting *)

Section StableSortFacts.
Context {A : Type} (le : A -> A -> bool).

Lemma insert_sorted_perm x l : insert_sorted le x l ≡ₚ x :: l.
Proof.
  induction l as [|y l IH]; simpl; [done|].
  destruct (le x y); [done|]. rewrite IH. apply Permutation_swap.
Qed.

Lemma stable_sort_perm l : stable_sort le l ≡ₚ l.
Proof.
  induction l as [|x l IH]; simpl; [done|].
  rewrite insert_sorted_perm. by rewrite IH.
Qed.

Hypothesis le_total : ∀ x y, le x y = true ∨ le y x = true.

Lemma insert_sorted_hd x y l :
  le y x = true → HdRel (le_prop le) y l → HdRel (le_prop le) y (insert_sorted le x l).
Proof.
  intros Hyx Hl. destruct l as [|z l]; simpl; [by constructor|].
  destruct (le x z); constructor; [done|]. by inversion Hl.
Qed.

Lemma insert_sorted_sorted x l :
  Sorted (le_prop le) l → Sorted (le_prop le) (insert_sorted le x l).
Proof.
  induction 1 as [|y l Hl IH Hhd]; simpl.
  - by repeat constructor.
  - destruct (le x y) eqn:E.
    + constructor; [by constructor | by constructor].
    + constructor; [exact IH|].
      apply insert_sorted_hd; [|done].
      destruct (le_total x y); congruence.
Qed.

Lemma stable_sort_sorted l : Sorted (le_prop le) (stable_sort le l).
Proof.
  induction l as [|x l IH]; simpl; [constructor|].
  by apply insert_sorted_sorted.
Qed.

(** A list already in order is left as it is. *)
Lemma stable_sort_fixed l : Sorted (le_prop le) l → stable_sort le l = l.
Proof.
  induction 1 as [|x l Hl IH Hhd]; simpl; [done|].
  rewrite IH. destruct Hhd as [|y l' Hxy]; simpl; [done|].
  unfold le_prop in Hxy. by rewrite Hxy.
Qed.
End StableSortFacts.

Lemma sorted_perm l : sorted l ≡ₚ l.
Proof. apply stable_sort_perm. Qed.

Lemma sorted_sorted l : Sorted (le_prop String.leb) (sorted l).
Proof. apply stable_sort_sorted, String.leb_total. Qed.

Lemma elem_of_sorted x l : x ∈ sorted l ↔ x ∈ l.
Proof. by rewrite sorted_perm. Qed.

(** The order of [sorted] is a total order on strings, so a list has one
    sorted arrangement only: whatever algorithm sorts, this is its result. *)
Lemma string_compare_trans a b c :
  String.compare a b ≠ Gt → String.compare b c ≠ Gt → String.compare a c ≠ Gt.
Proof.
  revert b c. induction a as [|x a IH]; intros [|y b] [|z c]; simpl; try done.
  unfold Ascii.compare.
  destruct (N.compare_spec (N_of_ascii x) (N_of_ascii y)) as [Exy|Hxy|Hxy];
    destruct (N.compare_spec (N_of_ascii y) (N_of_ascii z)) as [Eyz|Hyz|Hyz];
    try done.
  - rewrite Exy, Eyz, N.compare_refl. apply IH.
  - intros _ _. rewrite Exy. by apply N.compare_lt_iff in Hyz as ->.
  - intros _ _. rewrite <- Eyz. by apply N.compare_lt_iff in Hxy as ->.
  - intros _ _. assert (N_of_ascii x < N_of_ascii z)%N as H by lia.
    by apply N.compare_lt_iff in H as ->.
Qed.

#[global] Instance string_leb_trans : Transitive (le_prop String.leb).
Proof.
  intros a b c. unfold le_prop, String.leb.
  pose proof (string_compare_trans a b c) as H.
  destruct (String.compare a b), (String.compare b c), (String.compare a c);
    try done; intros _ _; exfalso; by apply H.
Qed.

#[global] Instance string_leb_antisym : AntiSymm (=) (le_prop String.leb).
Proof. intros a b. apply String.leb_antisym. Qed.

Lemma sorted_unique l l' :
  l' ≡ₚ l → Sorted (le_prop String.leb) l' → l' = sorted l.
Proof.
  intros Hp Hs. apply (Sorted_unique (le_prop String.leb)); [done | apply sorted_sorted|].
  by rewrite sorted_perm.
Qed.

(** ** Facts about [value_counts] *)

Lemma occurrences_snoc k l x :
  occurrences k (l ++ [x]) = (occurrences k l + if String.eqb k x then 1 else 0)%Z.
Proof.
  unfold occurrences. rewrite List.filter_app, length_app. simpl.
  destruct (String.eqb k x); simpl; lia.
Qed.

Lemma occurrences_pos k l : k ∈ l → (0 < occurrences k l)%Z.
Proof.
  unfold occurrences. induction 1 as [k l|k y l _ IH]; simpl.
  - rewrite String.eqb_refl. simpl. lia.
  - destruct (String.eqb k y); simpl; lia.
Qed.

Lemma tally_add_keys x acc :
  (tally_add x acc).*1 = acc.*1 ++ (if bool_decide (x ∈ acc.*1) then [] else [x]).
Proof.
  induction acc as [|[y n] acc IH]; csimpl; [done|].
  destruct (String.eqb_spec x y) as [->|Hne]; csimpl.
  - rewrite bool_decide_eq_true_2 by apply list_elem_of_here.
    by rewrite app_nil_r.
  - rewrite IH. f_equal.
    rewrite (bool_decide_ext (x ∈ y :: acc.*1) (x ∈ acc.*1)); [done|].
    rewrite elem_of_cons. split; [intros [?|?]; [congruence | done] | by right].
Qed.

Lemma tally_add_get k x acc :
  tally_get k (tally_add x acc)
  = (tally_get k acc + if String.eqb k x then 1 else 0)%Z.
Proof.
  induction acc as [|[y n] acc IH]; simpl.
  - destruct (String.eqb k x); lia.
  - destruct (String.eqb_spec x y) as [->|Hne]; simpl.
    + destruct (String.eqb k y); lia.
    + destruct (String.eqb_spec k y) as [->|Hky]; [|exact IH].
      destruct (String.eqb_spec y x); [congruence | lia].
Qed.

Lemma counts_sum_cons kv acc : counts_sum (kv :: acc) = (kv.2 + counts_sum acc)%Z.
Proof. reflexivity. Qed.

Lemma tally_add_sum x acc : counts_sum (tally_add x acc) = (counts_sum acc + 1)%Z.
Proof.
  induction acc as [|[y n] acc IH]; [done|].
  cbn [tally_add]. destruct (String.eqb x y); rewrite !counts_sum_cons; simpl; lia.
Qed.

Lemma tally_add_pos x acc :
  Forall (fun kv => (0 < kv.2)%Z) acc → Forall (fun kv => (0 < kv.2)%Z) (tally_add x acc).
Proof.
  induction 1 as [|[y n] acc Hn Hacc IH]; simpl.
  - by repeat constructor.
  - simpl in Hn. destruct (String.eqb x y); constructor; simpl; try done; lia.
Qed.

Lemma tally_snoc l x : tally (l ++ [x]) = tally_add x (tally l).
Proof. unfold tally. by rewrite foldl_app. Qed.

Lemma tally_get_elem k n acc : NoDup acc.*1 → (k, n) ∈ acc → tally_get k acc = n.
Proof.
  induction acc as [|[y m] acc IH]; simpl; intros Hnd Hin.
  - by apply elem_of_nil in Hin.
  - apply NoDup_cons in Hnd as [Hy Hnd]. apply elem_of_cons in Hin as [[= -> ->]|Hin].
    + by rewrite String.eqb_refl.
    + destruct (String.eqb_spec k y) as [->|_]; [|by apply IH].
      destruct Hy. apply list_elem_of_fmap. by exists (y, n).
Qed.

(** The tally holds, once each and in order of first appearance, the values
    of the list with their numbers of occurrences. *)
Lemma tally_spec l :
  NoDup (tally l).*1
  ∧ (∀ k, k ∈ (tally l).*1 ↔ k ∈ l)
  ∧ (∀ k, tally_get k (tally l) = occurrences k l)
  ∧ Forall (fun kv => (0 < kv.2)%Z) (tally l)
  ∧ counts_sum (tally l) = Z.of_nat (length l).
Proof.
  induction l as [|x l (Hnd & Hk & Hg & Hp & Hs)] using rev_ind.
  - repeat split; try done; constructor.
  - rewrite tally_snoc. repeat split.
    + rewrite tally_add_keys. case_bool_decide; [by rewrite app_nil_r|].
      apply NoDup_app. repeat split; [done| |apply NoDup_singleton].
      intros y Hy ->%list_elem_of_singleton. done.
    + rewrite tally_add_keys, !elem_of_app, Hk, list_elem_of_singleton.
      case_bool_decide as Hx.
      * intros [?|H]; [tauto|]. by apply elem_of_nil in H.
      * rewrite list_elem_of_singleton. tauto.
    + rewrite tally_add_keys, !elem_of_app, Hk, list_elem_of_singleton.
      case_bool_decide as Hx.
      * rewrite Hk in Hx. intros [?| ->]; by left.
      * rewrite list_elem_of_singleton. tauto.
    + intros k. by rewrite tally_add_get, Hg, occurrences_snoc.
    + by apply tally_add_pos.
    + rewrite tally_add_sum, Hs, length_app. simpl. lia.
Qed.

Lemma counts_sum_perm c1 c2 : c1 ≡ₚ c2 → counts_sum c1 = counts_sum c2.
Proof.
  induction 1 as [|[] ? ? _ IH|[] []|]; rewrite ?counts_sum_cons; simpl; lia.
Qed.

Lemma value_counts_perm l : value_counts l ≡ₚ tally l.
Proof. apply stable_sort_perm. Qed.

(** Rows come by descending count. *)
Lemma value_counts_descending l :
  Sorted (fun a b => (b.2 ≤ a.2)%Z) (value_counts l).
Proof.
  unfold value_counts.
  eapply Sorted_ind with
    (P := fun l => Sorted (fun a b : string * Z => (b.2 ≤ a.2)%Z) l);
    [constructor| |apply stable_sort_sorted; intros [? x] [? y]; simpl; lia].
  intros a l0 _ IH Hhd. constructor; [done|].
  destruct Hhd as [|b l1 Hab]; constructor.
  unfold le_prop in Hab. lia.
Qed.

Lemma value_counts_spec l :
  NoDup (value_counts l).*1
  ∧ (∀ k, k ∈ (value_counts l).*1 ↔ k ∈ l)
  ∧ (∀ k n, (k, n) ∈ value_counts l → n = occurrences k l ∧ (0 < n)%Z)
  ∧ counts_sum (value_counts l) = Z.of_nat (length l).
Proof.
  destruct (tally_spec l) as (Hnd & Hk & Hg & Hp & Hs).
  pose proof (value_counts_perm l) as Hperm.
  repeat split.
  - by rewrite Hperm.
  - rewrite Hperm. apply Hk.
  - rewrite Hperm. apply Hk.
  - rewrite <- Hg. symmetry. apply tally_get_elem; [done|]. by rewrite <- Hperm.
  - rewrite Hperm in H. rewrite Forall_forall in Hp. by apply (Hp (k, n)).
  - by rewrite (counts_sum_perm _ _ Hperm).
Qed.

(** ** The value normaliser *)

Lemma bucket_value_Str s allowed :
  bucket_value (Str s) allowed =
  if negb (PyStr.truthy (PyStr.strip s)) then ""
  else if bool_decide (PyStr.strip s ∈ allowed) then PyStr.strip s else OTHER_LABEL.
Proof. reflexivity. Qed.

(** A fragment that is already trimmed and not empty is kept when it is a
    permitted answer and becomes the sentinel otherwise. *)
Lemma bucket_value_trimmed p allowed :
  PyStr.strip p = p → p ≠ "" →
  bucket_value (Str p) allowed = if bool_decide (p ∈ allowed) then p else OTHER_LABEL.
Proof.
  intros Hp Hne. rewrite bucket_value_Str, Hp.
  apply PyStrFacts.truthy_true in Hne. by rewrite Hne.
Qed.

(** C1: for every raw value and permitted set, [bucket_value] returns the
    empty (absent) token for a missing value ([NaN] or [None]) and for a
    string of white space only; returns the trimmed value itself when it is,
    character for character, an entry of the permitted set; and returns
    ["other"] in every remaining case.  Hence the token is always absent, a
    permitted entry or ["other"]. *)
Theorem bucket_value_spec (value : cell) (allowed : list string) :
  (isna value = true → bucket_value value allowed = "")
  ∧ (∀ s, value = Str s → PyStr.all_space s → bucket_value value allowed = "")
  ∧ (∀ s, value = Str s → ¬ PyStr.all_space s → PyStr.strip s ∈ allowed →
       bucket_value value allowed = PyStr.strip s)
  ∧ (∀ s, value = Str s → ¬ PyStr.all_space s → PyStr.strip s ∉ allowed →
       bucket_value value allowed = OTHER_LABEL)
  ∧ (bucket_value value allowed = ""
     ∨ bucket_value value allowed ∈ allowed
     ∨ bucket_value value allowed = OTHER_LABEL).
Proof.
  split; [|split; [|split; [|split]]].
  - unfold bucket_value. by intros ->.
  - intros s -> Hs. rewrite bucket_value_Str.
    apply PyStrFacts.strip_empty in Hs. by rewrite Hs.
  - intros s -> Hs Hin. rewrite bucket_value_Str.
    rewrite <- PyStrFacts.strip_empty in Hs.
    apply PyStrFacts.truthy_true in Hs. rewrite Hs. simpl.
    by rewrite bool_decide_eq_true_2.
  - intros s -> Hs Hin. rewrite bucket_value_Str.
    rewrite <- PyStrFacts.strip_empty in Hs.
    apply PyStrFacts.truthy_true in Hs. rewrite Hs. simpl.
    by rewrite bool_decide_eq_false_2.
  - destruct value as [| |s]; [by left | by left|].
    rewrite bucket_value_Str.
    destruct (PyStr.truthy (PyStr.strip s)); simpl; [|by left].
    case_bool_decide; [right; by left | right; by right].
Qed.

(** The match is exact: a permitted answer in another letter case, or an
    unknown answer, is bucketed; surrounding white space is not counted. *)
Example bucket_value_examples :
  bucket_value (Str "  Yes ") ["Yes"; "No"] = "Yes"
  ∧ bucket_value (Str "yes") ["Yes"; "No"] = "other"
  ∧ bucket_value (Str "Maybe") ["Yes"; "No"] = "other"
  ∧ bucket_value (Str "   ") ["Yes"; "No"] = ""
  ∧ bucket_value NaN ["Yes"; "No"] = ""
  ∧ bucket_value PyNone ["Yes"; "No"] = "".
Proof. repeat split; reflexivity. Qed.

(** ** Multi-select expansion *)

Lemma split_parts_trimmed raw p :
  p ∈ split_parts raw → PyStr.strip p = p ∧ p ≠ "".
Proof.
  unfold split_parts. rewrite list_elem_of_In, filter_In, <- list_elem_of_In.
  intros [Hin Hne]. apply PyStrFacts.truthy_true in Hne. split; [|done].
  apply list_elem_of_fmap in Hin as (q & -> & _). apply PyStrFacts.strip_idemp.
Qed.

Lemma bucket_value_nonempty p allowed :
  PyStr.strip p = p → p ≠ "" → PyStr.truthy (bucket_value (Str p) allowed) = true.
Proof.
  intros Hp Hne. rewrite bucket_value_trimmed by done.
  case_bool_decide; [by apply PyStrFacts.truthy_true | reflexivity].
Qed.

Lemma foldl_snoc_map {A B} (f : A → B) (acc : list B) (l : list A) :
  foldl (fun items p => items ++ [f p]) acc l = acc ++ map f l.
Proof.
  revert acc. induction l as [|x l IH]; intros acc; simpl.
  - by rewrite app_nil_r.
  - by rewrite IH, <- app_assoc.
Qed.

Lemma cell_tokens_nonempty allowed raw :
  List.filter PyStr.truthy (cell_tokens allowed raw) = cell_tokens allowed raw.
Proof.
  unfold cell_tokens.
  assert (∀ l, (∀ p, p ∈ l → PyStr.strip p = p ∧ p ≠ "") →
               List.filter PyStr.truthy (map (fun p => bucket_value (Str p) allowed) l)
               = map (fun p => bucket_value (Str p) allowed) l) as H.
  { induction l as [|p l IH]; intros Hl; simpl; [done|].
    destruct (Hl p) as [Hp Hne]; [apply list_elem_of_here|].
    rewrite bucket_value_nonempty by done. f_equal. apply IH.
    intros q Hq. apply Hl. by apply list_elem_of_further. }
  apply H. intros p. apply split_parts_trimmed.
Qed.

(** The expansion of a series is, cell after cell, the tokens of the cells
    that are not missing. *)
Lemma explode_multiselect_flat s allowed :
  explode_multiselect s allowed
  = flat_map (cell_tokens allowed) (map py_str (dropna s)).
Proof.
  unfold explode_multiselect.
  assert (∀ l acc,
    foldl (fun (items : list string) (raw : string) =>
             match split_parts raw with
             | [] => items
             | q :: qs =>
                 foldl (fun (items : list string) (p : string) =>
                          items ++ [bucket_value (Str p) allowed])
                       items (q :: qs)
             end) acc l
    = acc ++ flat_map (cell_tokens allowed) l) as H.
  { induction l as [|raw l IH]; intros acc; simpl; [by rewrite app_nil_r|].
    rewrite IH. unfold cell_tokens at 2.
    destruct (split_parts raw) as [|p ps] eqn:E.
    - done.
    - rewrite foldl_snoc_map. simpl. by rewrite <- !app_assoc. }
  cbv zeta. rewrite H. simpl.
  induction (map py_str (dropna s)) as [|raw l IH]; simpl; [done|].
  by rewrite List.filter_app, cell_tokens_nonempty, IH.
Qed.

(** The expansion of a series is the expansions of its cells, one after the
    other. *)
Lemma explode_multiselect_cells s allowed :
  explode_multiselect s allowed
  = flat_map (fun raw => explode_multiselect [raw] allowed) s.
Proof.
  rewrite explode_multiselect_flat.
  induction s as [|raw s IH]; simpl; [done|].
  rewrite explode_multiselect_flat. unfold dropna in *. simpl.
  destruct (notna raw); simpl; [|exact IH].
  by rewrite app_nil_r, IH.
Qed.

(** C3: for every raw cell and permitted set, the expansion of the cell is
    empty when the cell is missing; otherwise it cuts the cell's text at the
    commas (the pieces, joined by commas again, give the text back, and no
    piece holds a comma), trims each piece, drops the pieces that are empty
    once trimmed, and normalises each remaining piece with [bucket_value]:
    a permitted answer stays, anything else becomes ["other"].  The cell
    ["Manager, Peers, Bogus"] gives [Manager, Peers, other]. *)
Theorem explode_multiselect_spec (raw : cell) (allowed : list string) :
  explode_multiselect [raw] allowed
  = (if isna raw then []
     else map (fun p => if bool_decide (p ∈ allowed) then p else OTHER_LABEL)
            (List.filter (fun p => negb (String.eqb p ""))
               (map PyStr.strip (PyStr.split "," (py_str raw)))))
  ∧ explode_multiselect [raw] allowed
    = (if isna raw then []
       else map (fun p => bucket_value (Str p) allowed) (split_parts (py_str raw)))
  ∧ PyStr.join "," (PyStr.split "," (py_str raw)) = py_str raw
  ∧ (∀ p, p ∈ PyStr.split "," (py_str raw) → ","%char ∉ list_ascii_of_string p)
  ∧ explode_multiselect [Str "Manager, Peers, Bogus"]
      ["Manager"; "Peers"; "Coach or Mentor"; "Assessment tools";
       "Self-reflection only"; "I generally distrust feedback"]
    = ["Manager"; "Peers"; "other"].
Proof.
  assert (explode_multiselect [raw] allowed
          = if isna raw then []
            else map (fun p => bucket_value (Str p) allowed) (split_parts (py_str raw)))
    as Hcell.
  { rewrite explode_multiselect_flat. unfold dropna, notna. simpl.
    destruct (isna raw); simpl; [done|]. by rewrite app_nil_r. }
  split; [|split; [exact Hcell|split; [|split]]].
  - rewrite Hcell. destruct (isna raw); [done|].
    change (List.filter (fun p => negb (String.eqb p ""))
              (map PyStr.strip (PyStr.split "," (py_str raw))))
      with (split_parts (py_str raw)).
    apply map_ext_in. intros p Hp%list_elem_of_In%split_parts_trimmed.
    destruct Hp as [Hp Hne]. by apply bucket_value_trimmed.
  - apply PyStrFacts.join_split.
  - intros p. apply PyStrFacts.split_no_sep.
  - vm_compute. reflexivity.
Qed.

(** ** The frequency aggregator *)

Lemma zip_with_map_r {A B C} (f : A → B → C) (g : A → B) (l : list A) :
  zip_with f l (map g l) = map (fun x => f x (g x)) l.
Proof. induction l as [|x l IH]; simpl; [done|]. by rewrite IH. Qed.

Lemma frequency_frame_rows s :
  frequency_frame s
  = map (fun kv => mkFreqRow kv.1 kv.2 (percentage_of (Z.of_nat (length s)) kv.2))
        (value_counts s).
Proof.
  unfold frequency_frame. cbv zeta.
  destruct (value_counts_spec s) as (_ & _ & _ & ->).
  unfold percentage_of. destruct (0 <? Z.of_nat (length s))%Z; apply zip_with_map_r.
Qed.

Lemma frequency_frame_answers s : map answer (frequency_frame s) = (value_counts s).*1.
Proof. rewrite frequency_frame_rows, map_map. done. Qed.

Lemma frequency_frame_counts s : map count (frequency_frame s) = (value_counts s).*2.
Proof. rewrite frequency_frame_rows, map_map. done. Qed.

Lemma foldr_add_counts (c : list (string * Z)) : foldr Z.add 0%Z c.*2 = counts_sum c.
Proof.
  induction c as [|[k n] c IH]; [done|].
  rewrite counts_sum_cons. csimpl. by rewrite IH.
Qed.

Lemma frequency_frame_total s : sum_counts (frequency_frame s) = Z.of_nat (length s).
Proof.
  unfold sum_counts. rewrite frequency_frame_counts, foldr_add_counts.
  apply value_counts_spec.
Qed.

Lemma frequency_frame_elem r s :
  r ∈ frequency_frame s →
  (answer r, count r) ∈ value_counts s
  ∧ percentage r = percentage_of (Z.of_nat (length s)) (count r).
Proof.
  rewrite frequency_frame_rows. intros ([k n] & -> & Hin)%list_elem_of_fmap. done.
Qed.

(** Every branch of the aggregator keeps only tokens that are not empty. *)
Lemma question_tokens_nonempty allowed_map multi df col tokens :
  question_tokens allowed_map multi df col = Some tokens →
  Forall (fun t => t ≠ "") tokens.
Proof.
  assert (∀ l, Forall (fun t => t ≠ "") (List.filter PyStr.truthy l)) as Hf.
  { intros l. apply Forall_forall. intros t [_ Ht]%list_elem_of_In%filter_In.
    by apply PyStrFacts.truthy_true. }
  unfold question_tokens. intros H.
  destruct (get_column df col) as [s|]; simpl in H;
    repeat (case_bool_decide || case_match); simplify_eq; apply Hf.
Qed.

(** The aggregator answers exactly when the column exists. *)
Lemma frequency_for_question_total allowed_map multi df col :
  is_Some (frequency_for_question_with allowed_map multi df col)
  ↔ is_Some (get_column df col).
Proof.
  unfold frequency_for_question_with, question_tokens.
  rewrite fmap_is_Some.
  destruct (get_column df col) as [s|]; simpl;
    repeat (case_bool_decide || case_match); split; intros [? ?]; eauto; done.
Qed.

Lemma frequency_table_rows_with allowed_map multi df col table :
  frequency_for_question_with allowed_map multi df col = Some table →
  ∃ tokens,
    question_tokens allowed_map multi df col = Some tokens
    ∧ Forall (fun t => t ≠ "") tokens
    ∧ Forall (fun r => (0 < count r)%Z) table
    ∧ NoDup (map answer table)
    ∧ sum_counts table = Z.of_nat (length tokens)
    ∧ (∀ r, r ∈ table → count r = occurrences (answer r) tokens)
    ∧ (∀ t, t ∈ tokens ↔ t ∈ map answer table).
Proof.
  unfold frequency_for_question_with. intros H.
  destruct (question_tokens allowed_map multi df col) as [tokens|] eqn:E; [|done].
  injection H as <-. exists tokens.
  destruct (value_counts_spec tokens) as (Hnd & Hk & Hc & Hs).
  split; [done|]. split; [by eapply question_tokens_nonempty|].
  split; [|split; [|split; [|split]]].
  - apply Forall_forall. intros r [Hr _]%frequency_frame_elem. by apply Hc in Hr as [_ ?].
  - by rewrite frequency_frame_answers.
  - apply frequency_frame_total.
  - intros r [Hr _]%frequency_frame_elem. by apply Hc in Hr as [? _].
  - intros t. by rewrite frequency_frame_answers, Hk.
Qed.

(** C10: whenever the aggregator produces a table, every row has a
    strictly positive count, no two rows have the same answer, the counts
    add up to the number of tokens counted (none of which is the empty,
    absent token), each row's count is the number of occurrences of its
    answer among the tokens, and the answers are exactly the tokens seen. *)
Theorem frequency_table_rows (df : DataFrame) (col : string) (table : list freq_row) :
  frequency_for_question df col = Some table →
  ∃ tokens,
    question_tokens ALLOWED MULTI_SELECT df col = Some tokens
    ∧ Forall (fun t => t ≠ "") tokens
    ∧ Forall (fun r => (0 < count r)%Z) table
    ∧ NoDup (map answer table)
    ∧ sum_counts table = Z.of_nat (length tokens)
    ∧ (∀ r, r ∈ table → count r = occurrences (answer r) tokens)
    ∧ (∀ t, t ∈ tokens ↔ t ∈ map answer table).
Proof. apply frequency_table_rows_with. Qed.

(** *** Rounded percentages *)

(** Rounding moves a quotient by at most one half. *)
Lemma round_half_even_err num den :
  (0 < den)%Z →
  (- den ≤ 2 * den * round_half_even num den - 2 * num ≤ den)%Z.
Proof.
  intros Hden. unfold round_half_even.
  pose proof (Z.div_mod num den ltac:(lia)) as Hdm.
  pose proof (Z.mod_pos_bound num den Hden) as Hr.
  destruct (Z.ltb_spec (2 * (num mod den)) den);
    [|destruct (Z.ltb_spec den (2 * (num mod den))); [|destruct (Z.even (num / den))]];
    nia.
Qed.





(** *** Percentages and the worked tables *)




(** C4: for the question on assessments not required by an employer,
    whose permitted answers are Yes and No, any collection whose column
    reads "Yes", "Yes", "No", blank, "Maybe" aggregates to Yes = 2 (50.0),
    No = 1 (25.0), other = 1 (25.0): the blank row is left out, so the four
    remaining tokens are the denominator. *)
Theorem assessment_scenario (df : DataFrame) :
  get_column df assessment_question
  = Some [Str "Yes"; Str "Yes"; Str "No"; Str ""; Str "Maybe"] →
  ALLOWED !! assessment_question = Some ["Yes"; "No"]
  ∧ (assessment_question ∉ MULTI_SELECT)
  ∧ question_tokens ALLOWED MULTI_SELECT df assessment_question
    = Some ["Yes"; "Yes"; "No"; "other"]
  ∧ frequency_for_question df assessment_question
    = Some [mkFreqRow "Yes" 2 500; mkFreqRow "No" 1 250; mkFreqRow "other" 1 250].
Proof.
  intros Hcol.
  assert (ALLOWED !! assessment_question = Some ["Yes"; "No"]) as Ha
    by (vm_compute; reflexivity).
  assert (assessment_question ∉ MULTI_SELECT) as Hm
    by (apply (bool_decide_unpack _); vm_compute; exact I).
  assert (question_tokens ALLOWED MULTI_SELECT df assessment_question
          = Some ["Yes"; "Yes"; "No"; "other"]) as Ht.
  { unfold question_tokens. rewrite Ha, Hcol, bool_decide_eq_false_2 by done.
    vm_compute. reflexivity. }
  split; [exact Ha|split; [exact Hm|split; [exact Ht|]]].
  unfold frequency_for_question, frequency_for_question_with. rewrite Ht.
  vm_compute. reflexivity.
Qed.

(** The scenario on a frame that also has the respondent identifier. *)
Lemma assessment_scenario_witness :
  frequency_for_question assessment_frame assessment_question
  = Some [mkFreqRow "Yes" 2 500; mkFreqRow "No" 1 250; mkFreqRow "other" 1 250].
Proof. apply (assessment_scenario assessment_frame). vm_compute. reflexivity. Defined.

(** The row invariants at the table of the assessment scenario. *)
Lemma frequency_table_rows_witness :
  ∃ tokens,
    question_tokens ALLOWED MULTI_SELECT assessment_frame assessment_question = Some tokens
    ∧ Forall (fun t => t ≠ "") tokens
    ∧ Forall (fun r => (0 < count r)%Z)
        [mkFreqRow "Yes" 2 500; mkFreqRow "No" 1 250; mkFreqRow "other" 1 250]
    ∧ NoDup ["Yes"; "No"; "other"]
    ∧ 4%Z = Z.of_nat (length tokens).
Proof.
  destruct (frequency_table_rows assessment_frame assessment_question
              [mkFreqRow "Yes" 2 500; mkFreqRow "No" 1 250; mkFreqRow "other" 1 250])
    as (tokens & H1 & H2 & H3 & H4 & H5 & _).
  - vm_compute. reflexivity.
  - exists tokens. repeat split; assumption.
Defined.

(** *** Multi-select questions without a permitted set *)

(** In the shipped catalogs every multi-select question has a permitted
    set, so the branch below is taken only for a catalog that was changed. *)
Lemma multi_select_all_allowed col : col ∈ MULTI_SELECT → is_Some (ALLOWED !! col).
Proof.
  unfold MULTI_SELECT. rewrite elem_of_list_to_set, !elem_of_cons.
  intros [->|[->|[->|[->|H]]]]; [vm_compute; eauto ..|].
  by apply elem_of_nil in H.
Qed.

(** With no permitted set the expansion is run against the empty list, and
    every fragment becomes the sentinel. *)
Lemma multiselect_unlisted_tokens allowed_map multi df col tokens :
  col ∈ multi → allowed_map !! col = None →
  question_tokens allowed_map multi df col = Some tokens →
  Forall (fun t => t = OTHER_LABEL) tokens.
Proof.
  intros Hm Ha. unfold question_tokens.
  rewrite bool_decide_eq_true_2, Ha by done.
  destruct (get_column df col) as [s|]; simpl; [|done]. intros [= <-].
  rewrite explode_multiselect_flat. apply Forall_forall. intros t.
  rewrite list_elem_of_In, in_flat_map.
  intros (raw & _ & (p & <- & Hp)%in_map_iff).
  apply list_elem_of_In, split_parts_trimmed in Hp as [Hp Hne].
  rewrite bucket_value_trimmed by done.
  rewrite bool_decide_eq_false_2; [done | apply not_elem_of_nil].
Qed.


(** ** Free-text theming *)

Lemma spec_theme_of_first_hit themes r :
  spec_theme_of themes r = default OVERFLOW_THEME (first_hit themes r).
Proof. unfold spec_theme_of, first_hit. by destruct (List.find _ themes). Qed.

Lemma first_hit_key themes r t : first_hit themes r = Some t → t ∈ (map fst themes).
Proof.
  unfold first_hit. destruct (List.find _ themes) as [kv|] eqn:E; [|done].
  intros [= <-]. apply find_some in E as [Hin _].
  apply list_elem_of_fmap. exists kv. split; [done | by apply list_elem_of_In].
Qed.

Lemma dict_set_fresh (d : theme_dict) key v :
  key ∉ (map fst d) → dict_set d key v = d ++ [(key, v)].
Proof.
  induction d as [|[k w] d IH]; csimpl; intros Hk; [done|].
  apply not_elem_of_cons in Hk as [Hne Hk].
  destruct (String.eqb_spec k key); [congruence|]. by rewrite IH.
Qed.

(** Appending to the list of a key changes that key's list and no other. *)
Lemma dict_append_map (keys : list string) (f : string → list string) t r :
  NoDup keys →
  dict_append (map (fun k => (k, f k)) keys) t r
  = map (fun k => (k, if String.eqb k t then f k ++ [r] else f k)) keys.
Proof.
  induction keys as [|k keys IH]; simpl; intros Hnd; [done|].
  apply NoDup_cons in Hnd as [Hk Hnd].
  destruct (String.eqb_spec k t) as [->|Hne].
  - f_equal. apply map_ext_in. intros k' Hk'.
    destruct (String.eqb_spec k' t) as [->|]; [|done].
    destruct Hk. by apply list_elem_of_In.
  - f_equal. by apply IH.
Qed.

Section Theming.
Variable themes : theme_dict.
Hypothesis themes_nodup : NoDup (map fst themes).
Hypothesis overflow_fresh : OVERFLOW_THEME ∉ (map fst themes).
Hypothesis keywords_lower :
  Forall (fun kv => Forall (fun k => PyStr.lower k = k) kv.2) themes.

(** The catalog's keywords are in lower case, so looking for them in the
    lowered response is matching with letter case ignored. *)
Lemma any_keyword_ignoring_case kv r :
  kv ∈ themes → any_keyword kv.2 (PyStr.lower r) = matches_ignoring_case kv.2 r.
Proof.
  intros Hin. rewrite Forall_forall in keywords_lower.
  specialize (keywords_lower kv Hin). rewrite Forall_forall in keywords_lower.
  unfold any_keyword, matches_ignoring_case.
  induction kv.2 as [|k ks IH]; simpl; [done|].
  rewrite (keywords_lower k) by apply list_elem_of_here.
  f_equal. apply IH. intros k' Hk'. apply keywords_lower. by apply list_elem_of_further.
Qed.

Lemma scan_themes_first_hit items r cat :
  items ⊆ themes →
  scan_themes items r (PyStr.lower r) cat
  = match first_hit items r with
    | Some t => (dict_append cat t r, true)
    | None => (cat, false)
    end.
Proof.
  unfold first_hit. induction items as [|[t kw] items IH]; intros Hsub; simpl; [done|].
  rewrite (any_keyword_ignoring_case (t, kw)) by (apply Hsub, list_elem_of_here).
  simpl. destruct (matches_ignoring_case kw r); [done|].
  apply IH. intros x Hx. apply Hsub. by apply list_elem_of_further.
Qed.

Lemma theming_step_state seen r :
  theming_step themes (theming_state themes seen) r
  = theming_state themes (seen ++ [r]).
Proof.
  unfold theming_step. cbv zeta. rewrite scan_themes_first_hit by done.
  unfold theming_state. cbn [fst snd].
  destruct (first_hit themes r) as [t|] eqn:E; cbn [negb].
  - rewrite dict_append_map by done. f_equal.
    + apply map_ext. intros k. rewrite List.filter_app. simpl. rewrite E.
      destruct (String.eqb_spec k t) as [->|Hne].
      * by rewrite bool_decide_eq_true_2.
      * rewrite bool_decide_eq_false_2 by congruence. by rewrite app_nil_r.
    + rewrite List.filter_app. simpl. rewrite E. simpl. by rewrite app_nil_r.
  - f_equal.
    + apply map_ext. intros k. rewrite List.filter_app. simpl. rewrite E.
      simpl. by rewrite app_nil_r.
    + rewrite List.filter_app. simpl. by rewrite E.
Qed.

Lemma theming_loop seen rest :
  foldl (theming_step themes) (theming_state themes seen) rest
  = theming_state themes (seen ++ rest).
Proof.
  revert seen. induction rest as [|r rest IH]; intros seen; simpl.
  - by rewrite app_nil_r.
  - rewrite theming_step_state, IH. by rewrite <- app_assoc.
Qed.

Lemma first_hit_theme_of r k :
  k ∈ (map fst themes) →
  bool_decide (first_hit themes r = Some k) = String.eqb (spec_theme_of themes r) k.
Proof.
  intros Hk. rewrite spec_theme_of_first_hit.
  destruct (first_hit themes r) as [t|]; cbn [from_option id].
  - destruct (String.eqb_spec t k) as [->|Hne].
    + by rewrite bool_decide_eq_true_2.
    + rewrite bool_decide_eq_false_2; [done | congruence].
  - rewrite bool_decide_eq_false_2 by done.
    destruct (String.eqb_spec OVERFLOW_THEME k) as [<-|]; done.
Qed.

Lemma first_hit_overflow r :
  bool_decide (first_hit themes r = None)
  = String.eqb (spec_theme_of themes r) OVERFLOW_THEME.
Proof.
  rewrite spec_theme_of_first_hit.
  destruct (first_hit themes r) as [t|] eqn:E; cbn [from_option id].
  - rewrite bool_decide_eq_false_2 by done. apply first_hit_key in E.
    destruct (String.eqb_spec t OVERFLOW_THEME) as [->|]; done.
  - rewrite bool_decide_eq_true_2 by done. by rewrite String.eqb_refl.
Qed.

Lemma theming_state_nil :
  (map (fun kv : string * list string => (kv.1, [])) themes, [])
  = theming_state themes [].
Proof. unfold theming_state. simpl. by rewrite map_map. Qed.

Lemma create_themes_with_loop responses :
  responses ≠ [] →
  create_themes_with themes responses
  = let st := theming_state themes responses in
    match st.2 with
    | [] => List.filter nonempty_group st.1
    | _ => dict_set (List.filter nonempty_group st.1) OVERFLOW_THEME st.2
    end.
Proof.
  intros Hne.
  assert (theming_state themes responses
          = foldl (theming_step themes)
              (map (fun kv : string * list string => (kv.1, [])) themes, [])
              responses) as ->.
  { by rewrite theming_state_nil, theming_loop. }
  destruct responses as [|r0 rs]; [done|].
  unfold create_themes_with.
  change (foldl _ ?i ?l) with (foldl (theming_step themes) i l).
  by destruct (foldl (theming_step themes) _ _) as [c u].
Qed.

Lemma filter_nonempty_keys (f : string → list string) keys :
  map fst (List.filter nonempty_group (map (fun k => (k, f k)) keys)) ⊆ keys.
Proof.
  induction keys as [|k keys IH]; simpl; [done|].
  destruct (nonempty_group (k, f k)); simpl.
  - intros x [->|Hx]%elem_of_cons; [apply list_elem_of_here|].
    apply list_elem_of_further. by apply IH.
  - intros x Hx. apply list_elem_of_further. by apply IH.
Qed.

(** The code groups as the specification says. *)
Lemma create_themes_with_spec responses :
  create_themes_with themes responses = spec_grouping themes responses.
Proof.
  unfold spec_grouping. rewrite map_app, List.filter_app.
  fold nonempty_group.
  assert (map (fun t => (t, List.filter
                 (fun r => String.eqb (spec_theme_of themes r) t) responses))
              (map fst themes)
          = (theming_state themes responses).1) as ->.
  { unfold theming_state. cbn [fst]. apply map_ext_in. intros k Hk%list_elem_of_In.
    f_equal. apply filter_ext. intros r. by rewrite first_hit_theme_of. }
  assert (List.filter (fun r => String.eqb (spec_theme_of themes r) OVERFLOW_THEME)
            responses = (theming_state themes responses).2) as Hu.
  { unfold theming_state. cbn [snd]. apply filter_ext. intros r.
    by rewrite first_hit_overflow. }
  cbn [map]. rewrite Hu. clear Hu.
  destruct (decide (responses = [])) as [->|Hne].
  - simpl. clear. induction (map fst themes) as [|k ks IH]; [done | exact IH].
  - rewrite create_themes_with_loop by done. cbv zeta.
    destruct (theming_state themes responses).2 as [|u us] eqn:E.
    + simpl. by rewrite app_nil_r.
    + rewrite dict_set_fresh; [done|].
      intros Hin. apply overflow_fresh.
      unfold theming_state in Hin |- *. cbn [fst] in Hin.
      by apply filter_nonempty_keys in Hin.
Qed.
End Theming.

(** *** Grouping by a classifier *)

Section Grouping.
Variable g : string → string.
Variable names : list string.
Hypothesis names_nodup : NoDup names.
Hypothesis names_cover : ∀ r, g r ∈ names.

Lemma elem_of_members r t l : r ∈ members g t l ↔ r ∈ l ∧ g r = t.
Proof.
  unfold members. rewrite list_elem_of_In, filter_In, <- list_elem_of_In.
  by rewrite String.eqb_eq.
Qed.

Lemma nonempty_group_true t rs : nonempty_group (t, rs) = true ↔ rs ≠ [].
Proof.
  unfold nonempty_group. simpl. case_bool_decide; simpl; split; congruence.
Qed.

Lemma elem_of_grouping t rs l :
  (t, rs) ∈ grouping g names l ↔ t ∈ names ∧ rs = members g t l ∧ rs ≠ [].
Proof.
  unfold grouping. rewrite !list_elem_of_In, filter_In, in_map_iff,
    nonempty_group_true.
  split.
  - by intros [(t' & [= <- <-] & Hin) Hne].
  - intros (Hin & -> & Hne). split; [|done]. by exists t.
Qed.

Lemma grouping_keys l :
  map fst (grouping g names l) = List.filter (fun t => nonempty_group (t, members g t l)) names.
Proof.
  unfold grouping. clear names_nodup names_cover.
  induction names as [|t ts IH]; simpl; [done|].
  destruct (nonempty_group (t, members g t l)); simpl; by rewrite IH.
Qed.

Lemma grouping_nodup l : NoDup (map fst (grouping g names l)).
Proof.
  rewrite grouping_keys. apply NoDup_ListNoDup, List.NoDup_filter.
  by apply NoDup_ListNoDup.
Qed.

(** Dropping the empty groups does not change what the groups hold. *)
Lemma grouping_concat l :
  concat (map snd (grouping g names l)) = concat (map (fun t => members g t l) names).
Proof.
  unfold grouping. clear names_nodup names_cover.
  induction names as [|t ts IH]; simpl; [done|].
  destruct (nonempty_group (t, members g t l)) eqn:E; simpl; [by rewrite IH|].
  unfold nonempty_group in E. simpl in E.
  case_bool_decide as Hm; [|done]. by rewrite Hm, IH.
Qed.

Lemma members_split (ts : list string) t l :
  t ∉ ts →
  members g t l ++ List.filter (fun r => bool_decide (g r ∈ ts)) l
  ≡ₚ List.filter (fun r => bool_decide (g r ∈ t :: ts)) l.
Proof.
  intros Ht. unfold members. induction l as [|r l IH]; simpl; [done|].
  destruct (String.eqb_spec (g r) t) as [E|E].
  - rewrite (bool_decide_eq_true_2 (g r ∈ t :: ts)) by (rewrite E; apply list_elem_of_here).
    rewrite bool_decide_eq_false_2 by (by rewrite E). simpl. by rewrite IH.
  - case_bool_decide as Hin.
    + rewrite (bool_decide_eq_true_2 (g r ∈ t :: ts)) by (by apply list_elem_of_further).
      rewrite <- IH. by rewrite Permutation_middle.
    + rewrite bool_decide_eq_false_2; [exact IH|].
      by intros [?|?]%elem_of_cons.
Qed.

Lemma members_concat_perm l :
  concat (map (fun t => members g t l) names) ≡ₚ l.
Proof.
  assert (∀ ts, NoDup ts →
    concat (map (fun t => members g t l) ts)
    ≡ₚ List.filter (fun r => bool_decide (g r ∈ ts)) l) as H.
  { induction ts as [|t ts IH]; intros Hnd; simpl.
    - induction l as [|r l IHl]; simpl; [done | exact IHl].
    - apply NoDup_cons in Hnd as [Ht Hnd]. rewrite IH by done.
      by apply members_split. }
  rewrite H by done. clear H. induction l as [|r l IH]; simpl; [done|].
  rewrite bool_decide_eq_true_2 by apply names_cover. by rewrite IH.
Qed.

(** Every response sits in one group, and nothing is lost or repeated. *)
Lemma grouping_perm l : concat (map snd (grouping g names l)) ≡ₚ l.
Proof. rewrite grouping_concat. apply members_concat_perm. Qed.

Lemma members_members t t' l :
  members g t (members g t' l) = if String.eqb t t' then members g t l else [].
Proof.
  unfold members. induction l as [|r l IH]; simpl; [by destruct (String.eqb t t')|].
  destruct (String.eqb_spec (g r) t') as [E'|E']; simpl.
  - destruct (String.eqb_spec (g r) t) as [E|E]; simpl; rewrite IH.
    + rewrite <- E, <- E'. by rewrite String.eqb_refl.
    + done.
  - rewrite IH. destruct (String.eqb_spec t t') as [->|]; [|done].
    destruct (String.eqb_spec (g r) t'); done.
Qed.

Lemma members_app t l1 l2 : members g t (l1 ++ l2) = members g t l1 ++ members g t l2.
Proof. apply List.filter_app. Qed.

Lemma members_concat t l :
  t ∈ names →
  members g t (concat (map (fun t' => members g t' l) names)) = members g t l.
Proof.
  assert (∀ ts, NoDup ts →
    members g t (concat (map (fun t' => members g t' l) ts))
    = if bool_decide (t ∈ ts) then members g t l else []) as H.
  { induction ts as [|t' ts IH]; intros Hnd; simpl; [done|].
    apply NoDup_cons in Hnd as [Ht Hnd].
    rewrite members_app, members_members, IH by done.
    destruct (String.eqb_spec t t') as [->|Hne].
    - rewrite (bool_decide_eq_true_2 (t' ∈ t' :: ts)) by apply list_elem_of_here.
      rewrite (bool_decide_eq_false_2 (t' ∈ ts)) by done. apply app_nil_r.
    - simpl. apply (f_equal (fun b : bool => if b then members g t l else [])).
      apply bool_decide_ext. rewrite elem_of_cons. split; [by right|].
      intros [?|?]; done. }
  intros Ht. rewrite H by done. by rewrite bool_decide_eq_true_2.
Qed.

(** Grouping the grouped responses once more changes nothing. *)
Lemma grouping_idemp l : grouping g names (concat (map snd (grouping g names l))) = grouping g names l.
Proof.
  rewrite grouping_concat. unfold grouping. f_equal.
  apply map_ext_in. intros t Ht%list_elem_of_In. f_equal. by apply members_concat.
Qed.

Lemma grouping_unique r l t :
  r ∈ l → (∃ rs, (t, rs) ∈ grouping g names l ∧ r ∈ rs) ↔ t = g r.
Proof.
  intros Hr. split.
  - intros (rs & (_ & -> & _)%elem_of_grouping & Hin).
    apply elem_of_members in Hin as [_ ?]. done.
  - intros ->. exists (members g (g r) l).
    assert (r ∈ members g (g r) l) as Hin by (by apply elem_of_members).
    split; [|done]. apply elem_of_grouping. repeat split; [apply names_cover|].
    intros E. rewrite E in Hin. by apply elem_of_nil in Hin.
Qed.
End Grouping.

(** *** The shipped theme catalog *)

Lemma THEMES_nodup : NoDup (map fst THEMES).
Proof. apply (bool_decide_unpack _). vm_compute. exact I. Qed.

Lemma THEMES_overflow_fresh : OVERFLOW_THEME ∉ map fst THEMES.
Proof. apply (bool_decide_unpack _). vm_compute. exact I. Qed.

Lemma THEMES_keywords_lower :
  Forall (fun kv : string * list string => Forall (fun k => PyStr.lower k = k) kv.2) THEMES.
Proof. apply (bool_decide_unpack _). vm_compute. exact I. Qed.

Lemma THEME_NAMES_nodup : NoDup THEME_NAMES.
Proof. apply (bool_decide_unpack _). vm_compute. exact I. Qed.

Lemma THEME_NAMES_cover r : spec_theme_of THEMES r ∈ THEME_NAMES.
Proof.
  rewrite spec_theme_of_first_hit. unfold THEME_NAMES.
  destruct (first_hit THEMES r) as [t|] eqn:E; cbn [from_option id].
  - apply elem_of_app. left. by apply first_hit_key in E.
  - apply elem_of_app. right. apply list_elem_of_here.
Qed.

Lemma spec_grouping_grouping l :
  spec_grouping THEMES l = grouping (spec_theme_of THEMES) THEME_NAMES l.
Proof. reflexivity. Qed.

Lemma spec_theme_of_lower themes r r' :
  PyStr.lower r = PyStr.lower r' → spec_theme_of themes r = spec_theme_of themes r'.
Proof.
  intros E. unfold spec_theme_of, matches_ignoring_case. by rewrite E.
Qed.

(** C5: for every sequence of responses, theming puts each response in
    exactly one theme: the first theme, in the catalog's order, one of whose
    keywords occurs in the response with letter case ignored, or
    "Other/Uncategorized" when there is none.  The output lists the themes
    in that order, each once and none empty; taken together the groups hold
    the input responses, each as often as it was given; responses that
    differ only in letter case get the same theme; and theming the grouped
    responses again gives the same groups. *)
Theorem theming_spec (responses : list string) :
  let result := create_themes_for_frustrations responses in
  result = spec_grouping THEMES responses
  ∧ (∀ r t, r ∈ responses →
       (∃ rs, (t, rs) ∈ result ∧ r ∈ rs) ↔ t = spec_theme_of THEMES r)
  ∧ concat (map snd result) ≡ₚ responses
  ∧ NoDup (map fst result)
  ∧ (∀ t rs, (t, rs) ∈ result → rs ≠ [] ∧ t ∈ THEME_NAMES)
  ∧ (∀ r r', PyStr.lower r = PyStr.lower r' →
       spec_theme_of THEMES r = spec_theme_of THEMES r')
  ∧ create_themes_for_frustrations (concat (map snd result)) = result.
Proof.
  assert (∀ l, create_themes_for_frustrations l
               = grouping (spec_theme_of THEMES) THEME_NAMES l) as Hspec.
  { intros l. unfold create_themes_for_frustrations.
    rewrite (create_themes_with_spec THEMES THEMES_nodup THEMES_overflow_fresh
               THEMES_keywords_lower).
    apply spec_grouping_grouping. }
  cbv zeta. rewrite !Hspec.
  split; [by rewrite spec_grouping_grouping|].
  split; [|split; [|split; [|split; [|split]]]].
  - intros r t Hr. apply grouping_unique; [apply THEME_NAMES_cover | done].
  - apply grouping_perm; [apply THEME_NAMES_nodup | apply THEME_NAMES_cover].
  - apply grouping_nodup, THEME_NAMES_nodup.
  - intros t rs (Ht & _ & Hne)%elem_of_grouping. done.
  - intros r r'. apply spec_theme_of_lower.
  - apply grouping_idemp, THEME_NAMES_nodup.
Qed.

(** Three responses, one for each of two themes and one for the overflow. *)
Example theming_scenario :
  create_themes_for_frustrations
    ["no time to do anything"; "too expensive for me"; "great program"]
  = [ ("Time constraints", ["no time to do anything"]);
      ("Cost/money", ["too expensive for me"]);
      ("Other/Uncategorized", ["great program"]) ]
  ∧ create_themes_for_frustrations [] = [].
Proof. split; vm_compute; reflexivity. Qed.

(** First match wins: a response with keywords of two themes goes to the
    one declared first, whatever the letter case. *)
Example theming_first_match :
  create_themes_for_frustrations ["Coaching is too EXPENSIVE"; "No Budget, no TIME"]
  = [ ("Time constraints", ["No Budget, no TIME"]);
      ("Lack of feedback/guidance", ["Coaching is too EXPENSIVE"]) ].
Proof. vm_compute. reflexivity. Qed.

(** ** Demographic filters *)

Lemma col_passes_spec selection cols row col :
  col_passes selection cols row col = true
  ↔ (∀ i, index_of col cols = Some i → selection col ≠ [] →
          py_str (cell_at i row) ∈ selection col).
Proof.
  unfold col_passes. destruct (index_of col cols) as [i|]; [|by split].
  destruct (selection col) as [|x xs] eqn:E.
  - split; [intros _ j _ H; done | done].
  - rewrite bool_decide_eq_true. split.
    + by intros H j [= <-] _.
    + intros H. by apply H.
Qed.

Lemma survivesb_spec selection cols row :
  survivesb selection cols row = true ↔ survives selection cols row.
Proof.
  unfold survivesb, survives. rewrite forallb_forall. split.
  - intros H col i Hcol. apply col_passes_spec, H. by apply list_elem_of_In.
  - intros H col Hcol%list_elem_of_In. apply col_passes_spec. intros i. by apply H.
Qed.

Lemma filter_filter {A} (P Q : A → bool) l :
  List.filter Q (List.filter P l) = List.filter (fun x => P x && Q x) l.
Proof.
  induction l as [|x l IH]; simpl; [done|].
  destruct (P x); simpl; [destruct (Q x)|]; by rewrite IH.
Qed.

Lemma filter_all {A} (P : A → bool) l : (∀ x, P x = true) → List.filter P l = l.
Proof. intros H. induction l as [|x l IH]; simpl; [done|]. by rewrite H, IH. Qed.

Lemma filter_length_mono {A} (P Q : A → bool) l :
  (∀ x, P x = true → Q x = true) →
  (length (List.filter P l) ≤ length (List.filter Q l))%nat.
Proof.
  intros H. induction l as [|x l IH]; simpl; [done|].
  destruct (P x) eqn:E; [rewrite (H x E); simpl; lia|].
  destruct (Q x); simpl; lia.
Qed.

(** One turn of the loop: the store only grows, the current frame keeps its
    columns and loses the rows the question rejects, and when the question
    is a column a widget is shown for it. *)
Lemma filter_step_spec selection st col df :
  heap st !! filtered st = Some df →
  ∃ st' df',
    filter_step selection st col = Some st'
    ∧ (∃ extra, heap st' = heap st ++ extra)
    ∧ (filtered st' = filtered st ∨ (length (heap st) ≤ filtered st')%nat)
    ∧ heap st' !! filtered st' = Some df'
    ∧ columns df' = columns df
    ∧ rows df' = List.filter (fun row => col_passes selection (columns df) row col) (rows df)
    ∧ shown st'
      = shown st ++
        match get_column df col with
        | Some s => [(col, sidebar_options (ALLOWED !! col) s)]
        | None => []
        end.
Proof.
  intros Hdf. unfold filter_step, get_column, col_passes.
  generalize (ALLOWED !! col). intros allowed.
  rewrite Hdf. cbn [mbind option_bind].
  destruct (index_of col (columns df)) as [i|] eqn:Ei; cbn [mbind option_bind].
  - destruct (selection col) as [|x xs] eqn:Es.
    + eexists _, df. split; [reflexivity|]. cbn [heap filtered shown].
      split; [exists []; by rewrite app_nil_r|]. split; [by left|].
      split; [exact Hdf|]. split; [reflexivity|]. split; [|reflexivity].
      symmetry. by apply filter_all.
    + eexists _, (select_rows df i (x :: xs)). split; [reflexivity|].
      cbn [heap filtered shown alloc fst snd].
      split; [by eexists|]. split; [right; lia|].
      split; [|split; [reflexivity|split; reflexivity]].
      by apply list_lookup_middle.
  - exists st, df. split; [reflexivity|].
    split; [exists []; by rewrite app_nil_r|]. split; [by left|].
    split; [exact Hdf|]. split; [reflexivity|]. split; [|by rewrite app_nil_r].
    symmetry. by apply filter_all.
Qed.

Lemma filter_loop_spec selection cs st df :
  heap st !! filtered st = Some df →
  ∃ st' df',
    foldl (fun st col => st ← st; filter_step selection st col) (Some st) cs = Some st'
    ∧ (∃ extra, heap st' = heap st ++ extra)
    ∧ (filtered st' = filtered st ∨ (length (heap st) ≤ filtered st')%nat)
    ∧ heap st' !! filtered st' = Some df'
    ∧ columns df' = columns df
    ∧ rows df'
      = List.filter (fun row => forallb (col_passes selection (columns df) row) cs) (rows df).
Proof.
  revert st df. induction cs as [|col cs IH]; intros st df Hdf.
  - exists st, df. split; [done|].
    split; [exists []; by rewrite app_nil_r|]. split; [by left|].
    split; [done|]. split; [done|]. symmetry. by apply filter_all.
  - destruct (filter_step_spec selection st col df Hdf)
      as (st1 & df1 & Hstep & [e1 He1] & Hr1 & Hdf1 & Hc1 & Hrows1 & _).
    destruct (IH st1 df1 Hdf1)
      as (st2 & df2 & Hloop & [e2 He2] & Hr2 & Hdf2 & Hc2 & Hrows2).
    exists st2, df2. cbn [foldl]. cbn [mbind option_bind]. rewrite Hstep.
    split; [exact Hloop|].
    split; [exists (e1 ++ e2); by rewrite He2, He1, app_assoc|].
    split.
    { rewrite He1, length_app in Hr2. destruct Hr1 as [Hr1|Hr1], Hr2 as [Hr2|Hr2];
        [left; congruence | right; lia | right; lia | right; lia]. }
    split; [done|]. split; [congruence|].
    rewrite Hrows2, Hrows1, filter_filter, Hc1. done.
Qed.

Lemma apply_demographic_filters_run selection h r df :
  h !! r = Some df →
  ∃ st df',
    apply_demographic_filters selection r h = Some st
    ∧ (∃ extra, heap st = h ++ extra)
    ∧ (length h ≤ filtered st)%nat
    ∧ heap st !! filtered st = Some df'
    ∧ columns df' = columns df
    ∧ rows df' = List.filter (survivesb selection (columns df)) (rows df).
Proof.
  intros Hdf. unfold apply_demographic_filters. rewrite Hdf.
  cbn [mbind option_bind alloc].
  destruct (filter_loop_spec selection DEMOGRAPHIC_COLS
              (mkFilterState (length h) (h ++ [df]) []) df)
    as (st & df' & Hrun & [extra He] & Hr & Hdf' & Hc & Hrows).
  { cbn [heap filtered]. by apply list_lookup_middle. }
  exists st, df'. split; [exact Hrun|]. cbn [heap filtered] in He, Hr.
  split; [exists ([df] ++ extra); by rewrite He, <- app_assoc|].
  split; [rewrite length_app in Hr; simpl in Hr; lia|].
  split; [exact Hdf'|]. split; [exact Hc|]. exact Hrows.
Qed.

(** C6: run on a collection held in the store, the filter produces a new
    collection with the same columns whose rows are, in order, the rows that
    survive: those whose value, as a string, is in the accepted set of every
    demographic question that is a column and has a non-empty accepted set
    (all such questions at once).  A question without accepted values
    rejects nothing, so with no constraint at all the result equals the
    input.  The result is a fresh object, and every object that was in the
    store before, the input among them, is unchanged. *)
Theorem apply_demographic_filters_spec (selection : string → list string)
    (h : store) (r : ref) (df : DataFrame) :
  h !! r = Some df →
  ∃ st df',
    apply_demographic_filters selection r h = Some st
    ∧ heap st !! filtered st = Some df'
    ∧ columns df' = columns df
    ∧ rows df' = List.filter (survivesb selection (columns df)) (rows df)
    ∧ (∀ row, survivesb selection (columns df) row = true
              ↔ survives selection (columns df) row)
    ∧ (∀ row, row ∈ rows df' ↔ row ∈ rows df ∧ survives selection (columns df) row)
    ∧ ((∀ col, col ∈ DEMOGRAPHIC_COLS → selection col = []) → df' = df)
    ∧ filtered st ≠ r
    ∧ (∀ a, (a < length h)%nat → heap st !! a = h !! a).
Proof.
  intros Hdf.
  destruct (apply_demographic_filters_run selection h r df Hdf)
    as (st & df' & Hrun & [extra He] & Hr & Hdf' & Hc & Hrows).
  exists st, df'. split; [exact Hrun|]. split; [exact Hdf'|].
  split; [exact Hc|]. split; [exact Hrows|].
  split; [intros row; apply survivesb_spec|].
  split; [|split; [|split]].
  - intros row. rewrite Hrows, list_elem_of_In, filter_In, <- list_elem_of_In.
    by rewrite survivesb_spec.
  - intros Hnone. destruct df' as [c' r'], df as [c0 r0]. simpl in *.
    subst c'. f_equal. rewrite Hrows. apply filter_all. intros row.
    apply survivesb_spec. intros col i Hcol _ Hsel. by destruct Hsel; apply Hnone.
  - apply lookup_lt_Some in Hdf. lia.
  - intros a Ha. rewrite He. by apply lookup_app_l.
Qed.

(** *** Monotonicity *)

Lemma tighter_add selection col accepted :
  selection col = [] → tighter selection (constrain selection col accepted).
Proof.
  intros Hc c. unfold constrain. destruct (String.eqb_spec c col) as [->|_].
  - by left.
  - destruct (selection c) as [|x xs]; [by left | by right].
Qed.

Lemma tighter_narrow selection col accepted :
  accepted ≠ [] → accepted ⊆ selection col →
  tighter selection (constrain selection col accepted).
Proof.
  intros Hne Hsub c. unfold constrain. destruct (String.eqb_spec c col) as [->|_].
  - by right.
  - destruct (selection c) as [|x xs]; [by left | by right].
Qed.

Lemma survivesb_tighter sel sel' cols row :
  tighter sel sel' → survivesb sel' cols row = true → survivesb sel cols row = true.
Proof.
  rewrite !survivesb_spec. intros Ht Hs col i Hcol Hi Hne.
  destruct (Ht col) as [?|[Hne' Hsub]]; [done|].
  apply Hsub. by apply Hs.
Qed.

Lemma filtering_monotonic_tighter sel sel' h r st st' df1 df2 :
  tighter sel sel' →
  apply_demographic_filters sel r h = Some st →
  apply_demographic_filters sel' r h = Some st' →
  heap st !! filtered st = Some df1 →
  heap st' !! filtered st' = Some df2 →
  (length (rows df2) ≤ length (rows df1))%nat
  ∧ rows df2 = List.filter (survivesb sel' (columns df1)) (rows df1).
Proof.
  intros Ht Hrun Hrun' Hdf1 Hdf2.
  destruct (h !! r) as [df|] eqn:Hdf;
    [|unfold apply_demographic_filters in Hrun; by rewrite Hdf in Hrun].
  destruct (apply_demographic_filters_run sel h r df Hdf)
    as (s1 & d1 & E1 & _ & _ & L1 & C1 & R1).
  destruct (apply_demographic_filters_run sel' h r df Hdf)
    as (s2 & d2 & E2 & _ & _ & L2 & C2 & R2).
  simplify_eq. rewrite R1, R2, C1. split.
  - apply filter_length_mono. intros row. by apply survivesb_tighter.
  - rewrite filter_filter. apply filter_ext. intros row.
    destruct (survivesb sel' (columns df) row) eqn:E; [|by rewrite andb_false_r].
    by rewrite (survivesb_tighter _ _ _ _ Ht E).
Qed.

(** C7 (as stated) fails: narrowing the accepted set of the gender question
    from {Male} to the empty set lifts the restriction, and the row count
    goes from 1 to 2. *)
Lemma narrowing_to_empty_adds_rows :
  filtered_count only_male two_genders_frame = Some 1
  ∧ filtered_count (constrain only_male gender_question []) two_genders_frame = Some 2
  ∧ [] ⊆ only_male gender_question.
Proof.
  split; [vm_compute; reflexivity|]. split; [vm_compute; reflexivity|].
  apply list_subseteq_nil.
Qed.

(** C7 (amended): putting a constraint on a question that had none, or
    replacing the accepted set of a question by a non-empty subset of it,
    never increases the number of rows of the filtered collection; the new
    result is the old one filtered once more. *)
Theorem filtering_monotonic (selection : string → list string) (col : string)
    (accepted : list string) (h : store) (r : ref) (st st' : filter_state)
    (df1 df2 : DataFrame) :
  selection col = [] ∨ (accepted ≠ [] ∧ accepted ⊆ selection col) →
  apply_demographic_filters selection r h = Some st →
  apply_demographic_filters (constrain selection col accepted) r h = Some st' →
  heap st !! filtered st = Some df1 →
  heap st' !! filtered st' = Some df2 →
  (length (rows df2) ≤ length (rows df1))%nat
  ∧ rows df2
    = List.filter (survivesb (constrain selection col accepted) (columns df1)) (rows df1).
Proof.
  intros Hcase. apply filtering_monotonic_tighter.
  destruct Hcase as [Hc|[Hne Hsub]]; [by apply tighter_add | by apply tighter_narrow].
Qed.

(** Adding the constraint Male to the two-respondent frame. *)
Lemma filtering_monotonic_witness :
  (length (rows male_rows_frame) ≤ length (rows two_genders_frame))%nat
  ∧ rows male_rows_frame
    = List.filter (survivesb only_male (columns two_genders_frame))
        (rows two_genders_frame).
Proof.
  eapply (filtering_monotonic (fun _ => []) gender_question ["Male"]
            [two_genders_frame] 0).
  - by left.
  - vm_compute. reflexivity.
  - vm_compute. reflexivity.
  - vm_compute. reflexivity.
  - vm_compute. reflexivity.
Defined.

(** The filter with the constraint Male on the two-respondent frame. *)
Lemma apply_demographic_filters_spec_witness :
  ∃ st df',
    apply_demographic_filters only_male 0 [two_genders_frame] = Some st
    ∧ heap st !! filtered st = Some df'
    ∧ columns df' = columns two_genders_frame
    ∧ rows df'
      = List.filter (survivesb only_male (columns two_genders_frame))
          (rows two_genders_frame)
    ∧ (∀ row, survivesb only_male (columns two_genders_frame) row = true
              ↔ survives only_male (columns two_genders_frame) row)
    ∧ (∀ row, row ∈ rows df'
              ↔ row ∈ rows two_genders_frame
                ∧ survives only_male (columns two_genders_frame) row)
    ∧ ((∀ col, col ∈ DEMOGRAPHIC_COLS → only_male col = []) → df' = two_genders_frame)
    ∧ filtered st ≠ 0
    ∧ (∀ a, (a < length [two_genders_frame])%nat →
            heap st !! a = [two_genders_frame] !! a).
Proof.
  apply (apply_demographic_filters_spec only_male [two_genders_frame] 0
           two_genders_frame).
  reflexivity.
Defined.

(** The filter on the worked frame: the copy, then the selected rows; the
    input stays at address 0. *)
Example apply_demographic_filters_example :
  apply_demographic_filters only_male 0 [two_genders_frame]
  = Some (mkFilterState 2
            [two_genders_frame; two_genders_frame; male_rows_frame]
            [(gender_question, ["Male"; "Female"; "Prefer not to say"])]).
Proof. vm_compute. reflexivity. Qed.

(** *** The options of the sidebar widgets *)

Lemma elem_of_filter_bool {A} (P : A → bool) (x : A) l :
  x ∈ List.filter P l ↔ x ∈ l ∧ P x = true.
Proof. by rewrite !list_elem_of_In, filter_In. Qed.

Lemma elem_of_unique v s : v ∈ unique s ↔ v ∈ s.
Proof.
  induction s as [|w s IH]; simpl; [done|].
  rewrite !elem_of_cons, elem_of_filter_bool, IH, negb_true_iff, bool_decide_eq_false.
  destruct (decide (v = w)); tauto.
Qed.

Lemma unique_nodup s : NoDup (unique s).
Proof.
  induction s as [|w s IH]; simpl; constructor.
  - rewrite elem_of_filter_bool, negb_true_iff, bool_decide_eq_false.
    by intros [_ ?].
  - apply NoDup_ListNoDup, List.NoDup_filter. by apply NoDup_ListNoDup.
Qed.

Lemma elem_of_dropna v s : v ∈ dropna s ↔ v ∈ s ∧ isna v = false.
Proof.
  unfold dropna. rewrite elem_of_filter_bool. unfold notna.
  by rewrite negb_true_iff.
Qed.

Lemma NoDup_map_inj_on {A B} (f : A → B) (l : list A) :
  (∀ x y, x ∈ l → y ∈ l → f x = f y → x = y) → NoDup l → NoDup (map f l).
Proof.
  intros Hinj. induction 1 as [|x l Hx Hl IH]; simpl; constructor.
  - intros (y & Hxy & Hy)%list_elem_of_fmap. destruct Hx.
    rewrite (Hinj x y); [done | apply list_elem_of_here | by apply list_elem_of_further | done].
  - apply IH. intros a b Ha Hb. apply Hinj; by apply list_elem_of_further.
Qed.

(** The observed values of a column, as strings: each once. *)
Lemma observed_values s :
  NoDup (map py_str (unique (dropna s)))
  ∧ (∀ o, o ∈ map py_str (unique (dropna s)) ↔ Str o ∈ s).
Proof.
  split.
  - apply NoDup_map_inj_on; [|apply unique_nodup].
    intros x y [_ Hx]%elem_of_unique%elem_of_dropna [_ Hy]%elem_of_unique%elem_of_dropna.
    destruct x, y; simpl in *; congruence.
  - intros o. split.
    + intros (c & -> & [Hc Hna]%elem_of_unique%elem_of_dropna)%list_elem_of_fmap.
      by destruct c.
    + intros Ho. apply list_elem_of_fmap. exists (Str o). split; [done|].
      by apply elem_of_unique, elem_of_dropna.
Qed.

(** With a non-empty permitted list, the widget offers that list, whole and
    in its order, and then the observed values outside it, sorted. *)
Lemma sidebar_options_allowed a al s :
  ∃ weird,
    sidebar_options (Some (a :: al)) s = (a :: al) ++ weird
    ∧ Sorted (le_prop String.leb) weird
    ∧ NoDup weird
    ∧ (∀ o, o ∈ weird ↔ (o ∉ a :: al) ∧ Str o ∈ s).
Proof.
  destruct (observed_values s) as [Hnd Hobs].
  eexists. split; [reflexivity|]. split; [apply sorted_sorted|]. split.
  - rewrite sorted_perm. apply NoDup_ListNoDup, List.NoDup_filter, NoDup_ListNoDup.
    by rewrite sorted_perm.
  - intros o. rewrite elem_of_sorted, elem_of_filter_bool, elem_of_sorted, Hobs.
    rewrite negb_true_iff, bool_decide_eq_false. tauto.
Qed.

(** Every demographic question has a non-empty permitted list. *)
Lemma demographic_allowed col :
  col ∈ DEMOGRAPHIC_COLS → ∃ a al, ALLOWED !! col = Some (a :: al).
Proof.
  unfold DEMOGRAPHIC_COLS. rewrite !elem_of_cons.
  intros [->|[->|[->|H]]]; [vm_compute; eauto ..|].
  by apply elem_of_nil in H.
Qed.

(** C8 (as stated) fails: when "Male" is the only gender observed, the
    widget still offers "Female" and "Prefer not to say", so the options
    are not the set of observed values. *)
Lemma options_include_unobserved :
  (shown <$> apply_demographic_filters (fun _ => []) 0 [male_only_frame])
  = Some [(gender_question, ["Male"; "Female"; "Prefer not to say"])]
  ∧ get_column male_only_frame gender_question = Some [Str "Male"; Str "Male"]
  ∧ ¬ (∀ o, o ∈ ["Male"; "Female"; "Prefer not to say"]
            ↔ Str o ∈ [Str "Male"; Str "Male"]).
Proof.
  split; [vm_compute; reflexivity|]. split; [vm_compute; reflexivity|].
  intros H. destruct (H "Female") as [H1 _].
  assert (Str "Female" ∈ [Str "Male"; Str "Male"]) as Hin.
  { apply H1. apply list_elem_of_further, list_elem_of_here. }
  rewrite !elem_of_cons in Hin. destruct Hin as [?|[?|Hin]]; [done | done|].
  by apply elem_of_nil in Hin.
Qed.

(** C8 (amended): for every demographic question that is a column of the
    current collection, the widget shown for it offers the question's whole
    permitted list, in the catalog's order and whether or not its entries
    were observed, followed by the distinct observed values that are not
    permitted, in sorted order. *)
Theorem sidebar_options_spec (selection : string → list string) (st : filter_state)
    (df : DataFrame) (col : string) (s : series) :
  col ∈ DEMOGRAPHIC_COLS →
  heap st !! filtered st = Some df →
  get_column df col = Some s →
  ∃ st' allowed weird,
    filter_step selection st col = Some st'
    ∧ ALLOWED !! col = Some allowed
    ∧ shown st' = shown st ++ [(col, allowed ++ weird)]
    ∧ Sorted (le_prop String.leb) weird
    ∧ NoDup weird
    ∧ (∀ o, o ∈ weird ↔ (o ∉ allowed) ∧ Str o ∈ s)
    ∧ (∀ o, o ∈ allowed ++ weird ↔ o ∈ allowed ∨ Str o ∈ s).
Proof.
  intros Hcol Hdf Hs.
  destruct (filter_step_spec selection st col df Hdf)
    as (st' & df' & Hstep & _ & _ & _ & _ & _ & Hshown).
  destruct (demographic_allowed col Hcol) as (a & al & Ha).
  rewrite Hs, Ha in Hshown.
  destruct (sidebar_options_allowed a al s) as (weird & Hopt & Hsorted & Hnd & Hw).
  exists st', (a :: al), weird. rewrite <- Hopt.
  split; [exact Hstep|]. split; [exact Ha|]. split; [exact Hshown|].
  split; [exact Hsorted|]. split; [exact Hnd|]. split; [exact Hw|].
  intros o. rewrite Hopt, elem_of_app, Hw.
  destruct (decide (o ∈ a :: al)); tauto.
Qed.

(** The gender widget on the frame where only Male is observed. *)
Lemma sidebar_options_spec_witness :
  ∃ st' allowed weird,
    filter_step (fun _ => []) (mkFilterState 0 [male_only_frame] []) gender_question
    = Some st'
    ∧ ALLOWED !! gender_question = Some allowed
    ∧ shown st' = [] ++ [(gender_question, allowed ++ weird)]
    ∧ Sorted (le_prop String.leb) weird
    ∧ NoDup weird
    ∧ (∀ o, o ∈ weird ↔ (o ∉ allowed) ∧ Str o ∈ [Str "Male"; Str "Male"])
    ∧ (∀ o, o ∈ allowed ++ weird ↔ o ∈ allowed ∨ Str o ∈ [Str "Male"; Str "Male"]).
Proof.
  apply (sidebar_options_spec (fun _ => []) (mkFilterState 0 [male_only_frame] [])
           male_only_frame gender_question [Str "Male"; Str "Male"]).
  - apply (bool_decide_unpack _). vm_compute. exact I.
  - reflexivity.
  - vm_compute. reflexivity.
Defined.

(** Unrecognised observed values come after the permitted list, sorted. *)
Example sidebar_options_example :
  sidebar_options (ALLOWED !! gender_question)
    [Str "zeta"; Str "Male"; NaN; Str ""; Str "Non-binary"; Str "zeta"]
  = ["Male"; "Female"; "Prefer not to say"; ""; "Non-binary"; "zeta"].
Proof. vm_compute. reflexivity. Qed.

(** * Further properties of the code *)

(** ** Columns and missing keys *)

Lemma index_of_Some col cols i : index_of col cols = Some i → col ∈ cols.
Proof.
  revert i. induction cols as [|c cols IH]; intros i; simpl; [done|].
  destruct (String.eqb_spec c col) as [->|_]; [intros _; apply list_elem_of_here|].
  destruct (index_of col cols) as [j|]; [|done].
  intros _. apply list_elem_of_further. by apply (IH j).
Qed.

Lemma index_of_None col cols : index_of col cols = None ↔ col ∉ cols.
Proof.
  induction cols as [|c cols IH]; simpl; [split; [intros _; apply not_elem_of_nil | done]|].
  rewrite not_elem_of_cons. destruct (String.eqb_spec c col) as [->|Hne].
  - split; [done | by intros [? _]].
  - destruct (index_of col cols) as [j|]; simpl.
    + split; [done|]. intros [_ H]. by apply IH in H.
    + split; [|done]. intros _. split; [congruence | by apply IH].
Qed.

Lemma get_column_None df col : get_column df col = None ↔ col ∉ columns df.
Proof.
  unfold get_column. rewrite <- index_of_None.
  by destruct (index_of col (columns df)).
Qed.

Lemma get_column_is_Some df col : is_Some (get_column df col) ↔ col ∈ columns df.
Proof.
  rewrite <- not_eq_None_Some, get_column_None.
  destruct (decide (col ∈ columns df)); tauto.
Qed.

Lemma get_column_length df col s : get_column df col = Some s → length s = length (rows df).
Proof.
  unfold get_column. destruct (index_of col (columns df)); [|done].
  intros [= <-]. apply length_map.
Qed.


(** ** Order and range of the frequency table *)

(** Rounding keeps the order of the quotients. *)
Lemma round_half_even_mono num num' den :
  (0 < den)%Z → (num ≤ num')%Z →
  (round_half_even num den ≤ round_half_even num' den)%Z.
Proof.
  intros Hden Hle. destruct (decide (num = num')) as [->|Hne]; [lia|].
  pose proof (round_half_even_err num den Hden).
  pose proof (round_half_even_err num' den Hden).
  nia.
Qed.



Lemma percentage_of_mono total n n' :
  (n ≤ n')%Z → (percentage_of total n ≤ percentage_of total n')%Z.
Proof.
  intros Hle. unfold percentage_of, round1.
  destruct (Z.ltb_spec 0 total); [|lia].
  apply round_half_even_mono; lia.
Qed.

Lemma value_counts_strongly_descending l :
  StronglySorted (fun a b : string * Z => (b.2 ≤ a.2)%Z) (value_counts l).
Proof.
  apply Sorted_StronglySorted; [|apply value_counts_descending].
  intros a b c. lia.
Qed.


(** X1: whenever a table is produced, its rows come by non-increasing
    count, and the percentages follow the same order: of any two rows the
    earlier one has a count and a percentage at least as large. *)
Theorem frequency_table_descending (df : DataFrame) (col : string)
    (table : list freq_row) :
  frequency_for_question df col = Some table →
  StronglySorted
    (fun r1 r2 => (count r2 ≤ count r1)%Z ∧ (percentage r2 ≤ percentage r1)%Z)
    table.
Proof.
  unfold frequency_for_question, frequency_for_question_with. intros H.
  destruct (question_tokens ALLOWED MULTI_SELECT df col) as [tokens|]; [|done].
  injection H as <-. rewrite frequency_frame_rows.
  eapply (StronglySorted_fmap _ (fun a b : string * Z => (b.2 ≤ a.2)%Z));
    [|apply value_counts_strongly_descending].
  intros a b Hab. simpl. split; [done | by apply percentage_of_mono].
Qed.

(** The order of the rows of the assessment scenario. *)
Lemma frequency_table_descending_witness :
  StronglySorted
    (fun r1 r2 => (count r2 ≤ count r1)%Z ∧ (percentage r2 ≤ percentage r1)%Z)
    [mkFreqRow "Yes" 2 500; mkFreqRow "No" 1 250; mkFreqRow "other" 1 250].
Proof.
  apply (frequency_table_descending assessment_frame assessment_question).
  vm_compute. reflexivity.
Defined.



(** ** What the tables can contain *)

Lemma bucket_value_cases value allowed :
  bucket_value value allowed = ""
  ∨ bucket_value value allowed ∈ allowed
  ∨ bucket_value value allowed = OTHER_LABEL.
Proof.
  destruct value as [| |s]; [by left | by left|].
  rewrite bucket_value_Str.
  destruct (PyStr.truthy (PyStr.strip s)); simpl; [|by left].
  case_bool_decide; [right; by left | right; by right].
Qed.

(** X6: bucketing is idempotent: a token that [bucket_value] returned is
    returned unchanged when it is bucketed again against the same list. *)
Theorem bucket_value_idempotent (value : cell) (allowed : list string) :
  bucket_value (Str (bucket_value value allowed)) allowed = bucket_value value allowed.
Proof.
  destruct value as [| |s]; [reflexivity | reflexivity|].
  rewrite (bucket_value_Str s).
  destruct (PyStr.truthy (PyStr.strip s)) eqn:Ht; simpl; [|reflexivity].
  case_bool_decide as Hin.
  - rewrite bucket_value_trimmed;
      [by rewrite bool_decide_eq_true_2
      | apply PyStrFacts.strip_idemp | by apply PyStrFacts.truthy_true].
  - rewrite bucket_value_trimmed; [|reflexivity | done].
    by case_bool_decide.
Qed.

Lemma explode_multiselect_tokens s allowed t :
  t ∈ explode_multiselect s allowed → t ∈ allowed ∨ t = OTHER_LABEL.
Proof.
  rewrite explode_multiselect_flat, list_elem_of_In, in_flat_map.
  intros (raw & _ & (p & <- & Hp)%in_map_iff).
  apply list_elem_of_In, split_parts_trimmed in Hp as [Hp Hne].
  rewrite bucket_value_trimmed by done. case_bool_decide; [by left | by right].
Qed.

Lemma question_tokens_catalogued allowed_map multi df col allowed tokens t :
  allowed_map !! col = Some allowed →
  question_tokens allowed_map multi df col = Some tokens →
  t ∈ tokens → t ∈ allowed ∨ t = OTHER_LABEL.
Proof.
  intros Ha. unfold question_tokens. rewrite Ha.
  destruct (get_column df col) as [s|]; simpl; [|by case_bool_decide].
  case_bool_decide; intros [= <-]; [apply explode_multiselect_tokens|].
  intros [Hin Ht]%elem_of_filter_bool. apply PyStrFacts.truthy_true in Ht.
  apply list_elem_of_fmap in Hin as (v & -> & _).
  destruct (notna v); [|done].
  destruct (bucket_value_cases v allowed) as [?|[?|?]]; [done | by left | by right].
Qed.

(** X3: for a question with a permitted list, single- or multi-select,
    every answer of the table is an entry of that list or ["other"], so the
    table never has more rows than the list has entries, plus one. *)
Theorem catalogued_table_answers (df : DataFrame) (col : string)
    (allowed : list string) (table : list freq_row) :
  ALLOWED !! col = Some allowed →
  frequency_for_question df col = Some table →
  (∀ r, r ∈ table → answer r ∈ allowed ∨ answer r = OTHER_LABEL)
  ∧ (length table ≤ S (length allowed))%nat.
Proof.
  intros Ha Hf.
  destruct (frequency_table_rows_with _ _ _ _ _ Hf)
    as (tokens & Ht & _ & _ & Hnd & _ & _ & Hans).
  assert (∀ a, a ∈ map answer table → a ∈ allowed ++ [OTHER_LABEL]) as Hsub.
  { intros a Hin%Hans. rewrite elem_of_app, list_elem_of_singleton.
    by eapply question_tokens_catalogued. }
  split.
  - intros r Hr. specialize (Hsub (answer r)).
    rewrite elem_of_app, list_elem_of_singleton in Hsub. apply Hsub.
    apply list_elem_of_fmap. exists r. split; [reflexivity | exact Hr].
  - pose proof (submseteq_length _ _ (NoDup_submseteq _ _ Hnd Hsub)) as Hlen.
    rewrite length_map, length_app in Hlen. simpl in Hlen. lia.
Qed.

(** The table of the assessment scenario against the list Yes, No. *)
Lemma catalogued_table_answers_witness :
  (∀ r, r ∈ [mkFreqRow "Yes" 2 500; mkFreqRow "No" 1 250; mkFreqRow "other" 1 250] →
        answer r ∈ ["Yes"; "No"] ∨ answer r = OTHER_LABEL)
  ∧ (length [mkFreqRow "Yes" 2 500; mkFreqRow "No" 1 250; mkFreqRow "other" 1 250]
     ≤ S (length ["Yes"; "No"]))%nat.
Proof.
  apply (catalogued_table_answers assessment_frame assessment_question).
  - vm_compute. reflexivity.
  - vm_compute. reflexivity.
Defined.

(** X7: for a multi-select question the total behind the percentages is
    the number of ticked options, not of respondents: the counts add up to
    the number of non-blank comma-separated fragments over all cells that
    are not missing. *)
Theorem multiselect_total_counts_selections (df : DataFrame) (col : string)
    (s : series) (table : list freq_row) :
  col ∈ MULTI_SELECT →
  get_column df col = Some s →
  frequency_for_question df col = Some table →
  sum_counts table
  = Z.of_nat (length (flat_map split_parts (map py_str (dropna s)))).
Proof.
  intros Hm Hs Hf.
  destruct (frequency_table_rows_with _ _ _ _ _ Hf)
    as (tokens & Ht & _ & _ & _ & -> & _).
  f_equal. unfold question_tokens in Ht.
  rewrite bool_decide_eq_true_2, Hs in Ht by done.
  assert (∃ allowed, tokens = explode_multiselect s allowed) as [allowed ->].
  { destruct (ALLOWED !! col) as [allowed|]; simpl in Ht; injection Ht as <-; eauto. }
  rewrite explode_multiselect_flat.
  induction (map py_str (dropna s)) as [|raw l IH]; simpl; [done|].
  rewrite !length_app, IH. unfold cell_tokens. by rewrite length_map.
Qed.

(** One respondent ticking six sources: six tokens. *)
Lemma multiselect_total_counts_selections_witness :
  sum_counts
    [ mkFreqRow "Manager" 1 167; mkFreqRow "Peers" 1 167;
      mkFreqRow "Coach or Mentor" 1 167; mkFreqRow "Assessment tools" 1 167;
      mkFreqRow "Self-reflection only" 1 167;
      mkFreqRow "I generally distrust feedback" 1 167 ]
  = Z.of_nat (length (flat_map split_parts (map py_str (dropna
      [Str "Manager, Peers, Coach or Mentor, Assessment tools, Self-reflection only, I generally distrust feedback"])))).
Proof.
  apply (multiselect_total_counts_selections six_sources_frame feedback_question).
  - apply (bool_decide_unpack _). vm_compute. exact I.
  - vm_compute. reflexivity.
  - vm_compute. reflexivity.
Defined.

(** ** Free-text questions *)

(** The text a cell contributes to a free-text question: trimmed, and
    empty for a missing cell. *)
Lemma free_text_tokens s :
  List.filter PyStr.truthy
    (map (fun v => if notna v then PyStr.strip (py_str v) else "") s)
  = List.filter PyStr.truthy (map (fun v => PyStr.strip (py_str v)) (dropna s)).
Proof.
  unfold dropna. induction s as [|v s IH]; simpl; [done|].
  destruct (notna v); simpl; [|exact IH].
  destruct (PyStr.truthy (PyStr.strip (py_str v))); by rewrite IH.
Qed.

Lemma get_all_responses_column df col s :
  get_column df col = Some s →
  get_all_responses df col
  = Some (List.filter PyStr.truthy (map (fun v => PyStr.strip (py_str v)) (dropna s))).
Proof.
  intros Hs. unfold get_all_responses. rewrite Hs. simpl. f_equal.
  assert (∀ l acc,
    (∀ v, v ∈ l → isna v = false) →
    foldl (fun (responses : list string) (value : cell) =>
             if isna value then responses
             else if PyStr.truthy (PyStr.strip (py_str value))
                  then responses ++ [PyStr.strip (py_str value)] else responses)
          acc l
    = acc ++ List.filter PyStr.truthy (map (fun v => PyStr.strip (py_str v)) l)) as H.
  { induction l as [|v l IH]; intros acc Hl; simpl; [by rewrite app_nil_r|].
    rewrite (Hl v) by apply list_elem_of_here.
    rewrite IH by (intros w Hw; apply Hl; by apply list_elem_of_further).
    destruct (PyStr.truthy (PyStr.strip (py_str v))); [by rewrite <- app_assoc | done]. }
  apply (H (dropna s) []). intros v Hv. by apply elem_of_dropna in Hv as [_ ?].
Qed.

Lemma occurrences_free_text k s :
  k ≠ "" →
  occurrences k
    (List.filter PyStr.truthy (map (fun v => PyStr.strip (py_str v)) (dropna s)))
  = Z.of_nat (length (List.filter
      (fun c => notna c && String.eqb k (PyStr.strip (py_str c))) s)).
Proof.
  intros Hk. unfold occurrences, dropna. f_equal.
  induction s as [|v s IH]; simpl; [done|].
  destruct (notna v); simpl; [|exact IH].
  destruct (PyStr.truthy (PyStr.strip (py_str v))) eqn:Ht; simpl.
  - destruct (String.eqb k (PyStr.strip (py_str v))); simpl; by rewrite IH.
  - apply PyStrFacts.truthy_false in Ht. rewrite Ht.
    destruct (String.eqb_spec k ""); [done | exact IH].
Qed.

(** X8: on a column of the frame, [get_all_responses] returns, in row
    order, the trimmed text of every cell that is neither missing nor blank;
    so no response is empty or carries outer white space, there are at most
    as many as rows, and for a question without a permitted list that is
    not multi-select they are exactly the tokens that
    [frequency_for_question] counts. *)
Theorem get_all_responses_spec (df : DataFrame) (col : string) (s : series) :
  get_column df col = Some s →
  ∃ responses,
    get_all_responses df col = Some responses
    ∧ responses
      = List.filter (fun r => negb (String.eqb r ""))
          (map (fun v => PyStr.strip (py_str v)) (List.filter notna s))
    ∧ Forall (fun r => r ≠ "" ∧ PyStr.strip r = r) responses
    ∧ (length responses ≤ length (rows df))%nat
    ∧ (ALLOWED !! col = None → col ∉ MULTI_SELECT →
       question_tokens ALLOWED MULTI_SELECT df col = Some responses).
Proof.
  intros Hs. eexists. split; [by apply get_all_responses_column|].
  split; [reflexivity|]. split; [|split].
  - apply Forall_forall. intros r [Hin Ht]%elem_of_filter_bool.
    apply PyStrFacts.truthy_true in Ht. split; [done|].
    apply list_elem_of_fmap in Hin as (v & -> & _). apply PyStrFacts.strip_idemp.
  - rewrite <- (get_column_length df col s Hs).
    etransitivity; [apply List.filter_length_le|]. rewrite length_map.
    apply List.filter_length_le.
  - intros Ha Hm. unfold question_tokens.
    rewrite bool_decide_eq_false_2, Hs, Ha by done. simpl.
    by rewrite free_text_tokens.
Qed.

(** The frustration column of the small survey. *)
Lemma get_all_responses_spec_witness :
  ∃ responses,
    get_all_responses small_survey FRUSTRATION_QUESTION = Some responses
    ∧ responses
      = List.filter (fun r => negb (String.eqb r ""))
          (map (fun v => PyStr.strip (py_str v))
             (List.filter notna
                [Str "No time at all"; Str " too expensive "; Str ""; Str "great program"]))
    ∧ Forall (fun r => r ≠ "" ∧ PyStr.strip r = r) responses
    ∧ (length responses ≤ length (rows small_survey))%nat
    ∧ (ALLOWED !! FRUSTRATION_QUESTION = None → FRUSTRATION_QUESTION ∉ MULTI_SELECT →
       question_tokens ALLOWED MULTI_SELECT small_survey FRUSTRATION_QUESTION
       = Some responses).
Proof.
  apply (get_all_responses_spec small_survey FRUSTRATION_QUESTION).
  vm_compute. reflexivity.
Defined.

(** X4: for a question without a permitted list that is not multi-select,
    the table counts the cells' texts as they are once trimmed: no answer is
    empty or carries outer white space, and the count of an answer is the
    number of cells, not missing, whose trimmed text is that answer. *)
Theorem free_text_table_counts (df : DataFrame) (col : string) (s : series)
    (table : list freq_row) (r : freq_row) :
  ALLOWED !! col = None →
  col ∉ MULTI_SELECT →
  get_column df col = Some s →
  frequency_for_question df col = Some table →
  r ∈ table →
  answer r ≠ ""
  ∧ PyStr.strip (answer r) = answer r
  ∧ count r
    = Z.of_nat (length (List.filter
        (fun c => notna c && String.eqb (answer r) (PyStr.strip (py_str c))) s)).
Proof.
  intros Ha Hm Hs Hf Hr.
  destruct (frequency_table_rows_with _ _ _ _ _ Hf)
    as (tokens & Ht & _ & _ & _ & _ & Hcount & Hans).
  unfold question_tokens in Ht.
  rewrite bool_decide_eq_false_2, Hs, Ha in Ht by done. simpl in Ht.
  rewrite free_text_tokens in Ht. injection Ht as <-.
  assert (answer r ∈ List.filter PyStr.truthy
            (map (fun v => PyStr.strip (py_str v)) (dropna s))) as Hin.
  { apply Hans, list_elem_of_fmap. exists r. split; [reflexivity | exact Hr]. }
  pose proof Hin as [Hin' Hne%PyStrFacts.truthy_true]%elem_of_filter_bool.
  apply list_elem_of_fmap in Hin' as (v & Hv & _).
  split; [done|]. split; [rewrite Hv; apply PyStrFacts.strip_idemp|].
  rewrite (Hcount r Hr). by apply occurrences_free_text.
Qed.

(** The row of "too expensive" in the frustration column of the small
    survey. *)
Lemma free_text_table_counts_witness :
  "too expensive" ≠ ""
  ∧ PyStr.strip "too expensive" = "too expensive"
  ∧ 1%Z
    = Z.of_nat (length (List.filter
        (fun c => notna c && String.eqb "too expensive" (PyStr.strip (py_str c)))
        [Str "No time at all"; Str " too expensive "; Str ""; Str "great program"])).
Proof.
  apply (free_text_table_counts small_survey FRUSTRATION_QUESTION
           [Str "No time at all"; Str " too expensive "; Str ""; Str "great program"]
           [mkFreqRow "No time at all" 1 333; mkFreqRow "too expensive" 1 333;
            mkFreqRow "great program" 1 333]
           (mkFreqRow "too expensive" 1 333)).
  - vm_compute. reflexivity.
  - apply (bool_decide_unpack _). vm_compute. exact I.
  - vm_compute. reflexivity.
  - vm_compute. reflexivity.
  - apply list_elem_of_further, list_elem_of_here.
Defined.

(** ** More on the demographic filters *)

Lemma filter_bool_sublist {A} (P : A → bool) l : List.filter P l `sublist_of` l.
Proof.
  induction l as [|x l IH]; simpl; [constructor|].
  destruct (P x); by constructor.
Qed.

(** Filtering only removes rows: the filtered collection has the
    columns of the input and its rows are rows of the input in their
    original order, so it never has more rows than the input. *)
Theorem filtered_rows_sublist (selection : string → list string) (h : store)
    (r : ref) (df df' : DataFrame) (st : filter_state) :
  h !! r = Some df →
  apply_demographic_filters selection r h = Some st →
  heap st !! filtered st = Some df' →
  columns df' = columns df
  ∧ rows df' `sublist_of` rows df
  ∧ (length (rows df') ≤ length (rows df))%nat.
Proof.
  intros Hdf Hrun Hdf'.
  destruct (apply_demographic_filters_run selection h r df Hdf)
    as (st0 & df0 & E & _ & _ & L & Hc & Hrows).
  simplify_eq. split; [exact Hc|].
  assert (rows df' `sublist_of` rows df) as Hsub
    by (rewrite Hrows; apply filter_bool_sublist).
  split; [exact Hsub | by apply sublist_length].
Qed.

(** The constraint Male on the two-respondent frame. *)
Lemma filtered_rows_sublist_witness :
  columns male_rows_frame = columns two_genders_frame
  ∧ rows male_rows_frame `sublist_of` rows two_genders_frame
  ∧ (length (rows male_rows_frame) ≤ length (rows two_genders_frame))%nat.
Proof.
  eapply (filtered_rows_sublist only_male [two_genders_frame] 0).
  - reflexivity.
  - vm_compute. reflexivity.
  - vm_compute. reflexivity.
Defined.

(** X9: filtering a filtered collection keeps the rows that pass both
    selections, whichever was applied first; with the same selection again
    nothing more is removed. *)
Theorem filters_compose (sel sel' : string → list string) (h : store) (r : ref)
    (df df1 df2 : DataFrame) (st1 st2 : filter_state) :
  h !! r = Some df →
  apply_demographic_filters sel r h = Some st1 →
  heap st1 !! filtered st1 = Some df1 →
  apply_demographic_filters sel' (filtered st1) (heap st1) = Some st2 →
  heap st2 !! filtered st2 = Some df2 →
  rows df2
  = List.filter (fun row => survivesb sel (columns df) row
                            && survivesb sel' (columns df) row) (rows df)
  ∧ rows df2
    = List.filter (fun row => survivesb sel' (columns df) row
                              && survivesb sel (columns df) row) (rows df)
  ∧ ((∀ col, sel' col = sel col) → df2 = df1).
Proof.
  intros Hdf Hrun1 Hdf1 Hrun2 Hdf2.
  destruct (apply_demographic_filters_run sel h r df Hdf)
    as (s1 & d1 & E1 & _ & _ & L1 & C1 & R1).
  simplify_eq.
  destruct (apply_demographic_filters_run sel' _ _ df1 Hdf1)
    as (s2 & d2 & E2 & _ & _ & L2 & C2 & R2).
  simplify_eq. rewrite C1 in R2, C2.
  assert (rows df2
          = List.filter (fun row => survivesb sel (columns df) row
                                    && survivesb sel' (columns df) row) (rows df)) as Hboth.
  { by rewrite R2, R1, filter_filter. }
  split; [exact Hboth|]. split.
  - rewrite Hboth. apply filter_ext. intros row. apply andb_comm.
  - intros Hsame. destruct df1 as [c1 r1], df2 as [c2 r2]. simpl in *. subst c1 c2.
    f_equal. rewrite R2, R1, filter_filter. apply filter_ext. intros row.
    assert (survivesb sel' (columns df) row = survivesb sel (columns df) row) as ->.
    { unfold survivesb. induction DEMOGRAPHIC_COLS as [|col cols IH]; simpl; [done|].
      rewrite IH. f_equal. unfold col_passes. by rewrite Hsame. }
    by destruct (survivesb sel (columns df) row).
Qed.

(** Male, then Male again, on the two-respondent frame. *)
Lemma filters_compose_witness :
  rows male_rows_frame
  = List.filter (fun row => survivesb only_male (columns two_genders_frame) row
                            && survivesb only_male (columns two_genders_frame) row)
      (rows two_genders_frame)
  ∧ rows male_rows_frame
    = List.filter (fun row => survivesb only_male (columns two_genders_frame) row
                              && survivesb only_male (columns two_genders_frame) row)
        (rows two_genders_frame)
  ∧ ((∀ col, only_male col = only_male col) → male_rows_frame = male_rows_frame).
Proof.
  eapply (filters_compose only_male only_male [two_genders_frame] 0).
  - reflexivity.
  - vm_compute. reflexivity.
  - vm_compute. reflexivity.
  - vm_compute. reflexivity.
  - vm_compute. reflexivity.
Defined.

(** *** The widgets of the sidebar *)

Lemma filter_loop_shown selection cs st df :
  heap st !! filtered st = Some df →
  ∃ st' new,
    foldl (fun st col => st ← st; filter_step selection st col) (Some st) cs = Some st'
    ∧ shown st' = shown st ++ new
    ∧ map fst new = List.filter (fun c => bool_decide (c ∈ columns df)) cs
    ∧ Forall (fun w : string * list string =>
                ∃ s, w.2 = sidebar_options (ALLOWED !! w.1) s) new.
Proof.
  revert st df. induction cs as [|col cs IH]; intros st df Hdf.
  - exists st, []. split; [done|]. split; [by rewrite app_nil_r|]. by split.
  - destruct (filter_step_spec selection st col df Hdf)
      as (st1 & df1 & Hstep & _ & _ & Hdf1 & Hc1 & _ & Hshown1).
    destruct (IH st1 df1 Hdf1) as (st2 & new & Hloop & Hshown2 & Hlabels & Hopts).
    cbn [foldl]. cbn [mbind option_bind]. rewrite Hstep.
    destruct (get_column df col) as [s|] eqn:Hs.
    + exists st2, ((col, sidebar_options (ALLOWED !! col) s) :: new).
      split; [exact Hloop|].
      split; [by rewrite Hshown2, Hshown1, <- app_assoc|]. split.
      * cbn [List.filter map fst].
        rewrite bool_decide_eq_true_2 by (apply get_column_is_Some; eauto).
        f_equal. by rewrite Hlabels, Hc1.
      * constructor; [by exists s | done].
    + exists st2, new. split; [exact Hloop|].
      split; [by rewrite Hshown2, Hshown1, app_nil_r|]. split; [|done].
      cbn [List.filter]. apply get_column_None in Hs.
      rewrite bool_decide_eq_false_2 by done. by rewrite Hlabels, Hc1.
Qed.

Lemma demographic_allowed_nodup col allowed :
  col ∈ DEMOGRAPHIC_COLS → ALLOWED !! col = Some allowed →
  NoDup allowed ∧ allowed ≠ [].
Proof.
  unfold DEMOGRAPHIC_COLS. rewrite !elem_of_cons.
  intros [->|[->|[->|H]]]; [| | |by apply elem_of_nil in H];
    intros Ha; vm_compute in Ha; injection Ha as <-;
    (split; [apply (bool_decide_unpack _); vm_compute; exact I | done]).
Qed.

(** X10: the sidebar shows one widget for each demographic question that
    is a column of the data, in the fixed order of [DEMOGRAPHIC_COLS], and
    none for a question that is not a column; the options of every widget
    start with the question's permitted list and hold no value twice. *)
Theorem sidebar_widgets (selection : string → list string) (h : store) (r : ref)
    (df : DataFrame) (st : filter_state) :
  h !! r = Some df →
  apply_demographic_filters selection r h = Some st →
  map fst (shown st)
  = List.filter (fun c => bool_decide (c ∈ columns df)) DEMOGRAPHIC_COLS
  ∧ Forall (fun w : string * list string =>
              NoDup w.2
              ∧ ∃ allowed, ALLOWED !! w.1 = Some allowed ∧ allowed `prefix_of` w.2)
           (shown st).
Proof.
  intros Hdf Hrun. unfold apply_demographic_filters in Hrun.
  rewrite Hdf in Hrun. cbn [mbind option_bind alloc] in Hrun.
  destruct (filter_loop_shown selection DEMOGRAPHIC_COLS
              (mkFilterState (length h) (h ++ [df]) []) df)
    as (st' & new & Hloop & Hshown & Hlabels & Hopts).
  { cbn [heap filtered]. by apply list_lookup_middle. }
  rewrite Hloop in Hrun. injection Hrun as ->.
  cbn [shown] in Hshown. rewrite app_nil_l in Hshown. subst new.
  split; [exact Hlabels|].
  apply Forall_forall. intros [col opts] Hw.
  assert (col ∈ DEMOGRAPHIC_COLS) as Hcol.
  { assert (col ∈ map fst (shown st)) as Hin
      by (apply list_elem_of_fmap; by exists (col, opts)).
    rewrite Hlabels in Hin. by apply elem_of_filter_bool in Hin as [? _]. }
  rewrite Forall_forall in Hopts. destruct (Hopts _ Hw) as [s Hs]. cbn [fst snd] in Hs |- *.
  destruct (demographic_allowed col Hcol) as (a & al & Ha).
  destruct (demographic_allowed_nodup col _ Hcol Ha) as [Hnd _].
  rewrite Ha in Hs.
  destruct (sidebar_options_allowed a al s) as (weird & Hopt & _ & Hndw & Hweird).
  rewrite Hs, Hopt. split.
  - apply NoDup_app. split; [done|]. split; [|done].
    intros o Ho Hw'. apply Hweird in Hw' as [Hno _]. exact (Hno Ho).
  - exists (a :: al). split; [exact Ha | by exists weird].
Qed.

(** The sidebar for the two-respondent frame, which has the gender
    question only. *)
Lemma sidebar_widgets_witness :
  map fst [(gender_question, ["Male"; "Female"; "Prefer not to say"])]
  = List.filter (fun c => bool_decide (c ∈ columns two_genders_frame)) DEMOGRAPHIC_COLS
  ∧ Forall (fun w : string * list string =>
              NoDup w.2
              ∧ ∃ allowed, ALLOWED !! w.1 = Some allowed ∧ allowed `prefix_of` w.2)
           [(gender_question, ["Male"; "Female"; "Prefer not to say"])].
Proof.
  apply (sidebar_widgets only_male [two_genders_frame] 0 two_genders_frame
           (mkFilterState 2
              [two_genders_frame; two_genders_frame; male_rows_frame]
              [(gender_question, ["Male"; "Female"; "Prefer not to say"])])).
  - reflexivity.
  - vm_compute. reflexivity.
Defined.

(** ** The table of themes *)

Lemma create_themes_grouping l :
  create_themes_for_frustrations l = grouping (spec_theme_of THEMES) THEME_NAMES l.
Proof.
  unfold create_themes_for_frustrations.
  rewrite (create_themes_with_spec THEMES THEMES_nodup THEMES_overflow_fresh
             THEMES_keywords_lower).
  apply spec_grouping_grouping.
Qed.






(** ** The page as a whole *)

Lemma cell_at_set_cell i j v row :
  cell_at j (set_cell i v row) = if decide (j = i) then v else cell_at j row.
Proof.
  unfold cell_at. revert j row.
  induction i as [|i IH]; intros [|j] [|c row]; simpl; try done.
  - by destruct j.
  - rewrite IH. destruct (decide (j = i)), (decide (S j = S i)); try lia; try done.
    by destruct j.
  - rewrite IH. destruct (decide (j = i)), (decide (S j = S i)); try lia; done.
Qed.

Lemma index_of_inj a b cols i :
  index_of a cols = Some i → index_of b cols = Some i → a = b.
Proof.
  revert i. induction cols as [|x xs IH]; intros i; simpl; [done|].
  destruct (String.eqb_spec x a) as [Ha|Ha], (String.eqb_spec x b) as [Hb|Hb].
  - congruence.
  - intros [= <-]. by destruct (index_of b xs).
  - intros H [= <-]. by destruct (index_of a xs).
  - destruct (index_of a xs) as [n|], (index_of b xs) as [m|]; simpl; try done.
    intros [= <-] [= ->]. by apply (IH n).
Qed.

(** Turning one column into strings keeps the labels, the number of rows
    and every other column. *)
Lemma astype_str_column_spec df col :
  columns (astype_str_column df col) = columns df
  ∧ length (rows (astype_str_column df col)) = length (rows df)
  ∧ (∀ c, c ≠ col → get_column (astype_str_column df col) c = get_column df c)
  ∧ get_column (astype_str_column df col) col
    = map (fun v => Str (py_str v)) <$> get_column df col.
Proof.
  unfold astype_str_column, get_column.
  destruct (index_of col (columns df)) as [i|] eqn:Ei; simpl.
  - split; [done|]. split; [apply length_map|]. split.
    + intros c Hc. destruct (index_of c (columns df)) as [j|] eqn:Ej; simpl; [|done].
      f_equal. rewrite map_map. apply map_ext. intros row.
      rewrite cell_at_set_cell. destruct (decide (j = i)) as [->|]; [|done].
      destruct Hc. by apply (index_of_inj c col (columns df) i).
    + rewrite Ei. simpl. f_equal. rewrite !map_map. apply map_ext. intros row.
      rewrite cell_at_set_cell. by destruct (decide (i = i)).
  - split; [done|]. split; [done|]. split; [done|]. by rewrite Ei.
Qed.

Lemma create_themes_nonempty l : l ≠ [] → create_themes_for_frustrations l ≠ [].
Proof.
  intros Hne E.
  assert (concat (map snd (create_themes_for_frustrations l)) ≡ₚ l) as Hperm.
  { rewrite create_themes_grouping.
    apply grouping_perm; [apply THEME_NAMES_nodup | apply THEME_NAMES_cover]. }
  rewrite E in Hperm. simpl in Hperm. by apply Permutation_nil_l in Hperm.
Qed.

Lemma headings_app p q : headings (p ++ q) = headings p ++ headings q.
Proof. apply omap_app. Qed.

(** One turn of the loop over the questions, for a question that is a
    column: a heading, then a notice, a chart that is not empty, or the
    responses with their themes. *)
Lemma render_question_spec filtered col :
  col ∈ columns filtered →
  ∃ section,
    render_question filtered col = Some section
    ∧ headings section = [col]
    ∧ Forall (fun e => match e with
                       | BarChart freq => freq ≠ []
                       | ThemesTable table => table ≠ []
                       | ResponsesTable responses => responses ≠ []
                       | _ => True
                       end) section.
Proof.
  intros Hcol. unfold render_question.
  rewrite bool_decide_eq_true_2 by done. cbn [negb].
  destruct (String.eqb col FRUSTRATION_QUESTION).
  - destruct (proj2 (get_column_is_Some filtered col) Hcol) as [s Hs].
    rewrite (get_all_responses_column _ _ _ Hs). cbn [mbind option_bind].
    destruct (List.filter _ _) as [|r0 rs] eqn:E.
    + eexists. split; [reflexivity|]. split; [reflexivity|]. by repeat constructor.
    + pose proof (create_themes_nonempty (r0 :: rs) ltac:(discriminate)) as Hthemes.
      destruct (create_themes_for_frustrations (r0 :: rs)) as [|t ts] eqn:Et; [done|].
      eexists. split; [reflexivity|]. split; [reflexivity|].
      repeat constructor; discriminate.
  - destruct (frequency_for_question filtered col) as [freq|] eqn:Ef.
    + cbn [mbind option_bind]. destruct freq as [|f fs].
      * eexists. split; [reflexivity|]. split; [reflexivity|]. by repeat constructor.
      * eexists. split; [reflexivity|]. split; [reflexivity|]. by repeat constructor.
    + assert (is_Some (frequency_for_question filtered col)) as [? Hf].
      { unfold frequency_for_question.
        by apply frequency_for_question_total, get_column_is_Some. }
      congruence.
Qed.

(** The sections of the page, one for each question that is a column. *)
Lemma sections_spec view cols sections :
  (∀ col, col ∈ cols → col ∈ columns view) →
  Forall2 (fun col section => render_question view col = Some section) cols sections →
  headings (concat sections) = cols
  ∧ Forall (fun e => match e with
                     | BarChart freq => freq ≠ []
                     | ThemesTable table => table ≠ []
                     | ResponsesTable responses => responses ≠ []
                     | _ => True
                     end) (concat sections).
Proof.
  intros Hin Hsec. induction Hsec as [|col section cols secs Hr _ IH]; [by split|].
  destruct (render_question_spec view col) as (section' & Hr' & Hhead & Hch);
    [apply Hin, list_elem_of_here|].
  rewrite Hr in Hr'. injection Hr' as <-.
  destruct IH as [IHh IHc]; [intros c Hc; by apply Hin, list_elem_of_further|].
  change (concat (section :: secs)) with (section ++ concat secs).
  rewrite headings_app, Hhead, IHh. split; [done | by apply Forall_app].
Qed.

(** The run of the script, step by step. *)
Lemma run_app_run selection loaded :
  ∃ df st view sections,
    run_app selection loaded
    = Some (shown st,
            [Metric "Total responses" (length (rows df));
             Metric "Filtered responses" (length (rows view))]
            ++ concat sections)
    ∧ columns df = columns loaded
    ∧ length (rows df) = length (rows loaded)
    ∧ apply_demographic_filters selection 0 [df] = Some st
    ∧ heap st !! filtered st = Some view
    ∧ columns view = columns loaded
    ∧ rows view = List.filter (survivesb selection (columns loaded)) (rows df)
    ∧ Forall2 (fun col section => render_question view col = Some section)
        (question_cols loaded) sections.
Proof.
  unfold run_app. cbv zeta.
  set (df := if bool_decide (PROLIFIC_COL ∈ columns loaded)
             then astype_str_column loaded PROLIFIC_COL else loaded).
  assert (columns df = columns loaded ∧ length (rows df) = length (rows loaded))
    as [Hcols Hlen].
  { unfold df. case_bool_decide; [|done].
    by destruct (astype_str_column_spec loaded PROLIFIC_COL) as (? & ? & _). }
  destruct (apply_demographic_filters_run selection [df] 0 df eq_refl)
    as (st & view & Hrun & [extra He] & _ & Hf & Hc & Hrows).
  assert (heap st !! 0 = Some df) as H0 by (by rewrite He).
  assert (question_cols df = question_cols loaded) as Hq
    by (unfold question_cols; by rewrite Hcols).
  assert (∃ sections, mapM (render_question view) (question_cols loaded) = Some sections)
    as [sections Hsec].
  { apply mapM_is_Some, Forall_forall. intros col Hcol.
    unfold question_cols in Hcol. apply elem_of_filter_bool in Hcol as [Hcol _].
    destruct (render_question_spec view col) as (section & Hs & _);
      [by rewrite Hc, Hcols|].
    unfold compose. by rewrite Hs. }
  exists df, st, view, sections.
  rewrite Hrun. cbn [mbind option_bind]. rewrite H0. cbn [mbind option_bind].
  rewrite Hf. cbn [mbind option_bind]. rewrite Hq, Hsec. cbn [mbind option_bind].
  split; [done|]. split; [done|]. split; [done|]. split; [done|]. split; [done|].
  split; [congruence|]. split; [by rewrite Hrows, Hcols|].
  by apply mapM_Some.
Qed.

(** X12: the script never fails on a loaded frame, whatever its columns,
    its cells and the selection made in the sidebar.  It gives a heading to
    every column except the respondent identifier and the demographic
    questions, in the order of the columns, and to nothing else; a bar chart
    is never drawn from an empty table, and the themes and the responses are
    only listed when there is at least one response. *)
Theorem run_app_page (selection : string → list string) (loaded : DataFrame) :
  ∃ shown_widgets page,
    run_app selection loaded = Some (shown_widgets, page)
    ∧ headings page = question_cols loaded
    ∧ (∀ col, col ∈ headings page ↔
              col ∈ columns loaded ∧ col ≠ PROLIFIC_COL ∧ col ∉ DEMOGRAPHIC_COLS)
    ∧ Forall (fun e => match e with
                       | BarChart freq => freq ≠ []
                       | ThemesTable table => table ≠ []
                       | ResponsesTable responses => responses ≠ []
                       | _ => True
                       end) page.
Proof.
  destruct (run_app_run selection loaded)
    as (df & st & view & sections & Hrun & _ & _ & _ & _ & Hc & _ & Hsec).
  eexists _, _. split; [exact Hrun|].
  assert (∀ col, col ∈ question_cols loaded → col ∈ columns view) as Hin.
  { intros col [Hcol _]%elem_of_filter_bool. by rewrite Hc. }
  destruct (sections_spec view (question_cols loaded) sections Hin Hsec)
    as [Hh Hcharts].
  split; [exact Hh|]. split.
  - intros col. cbn [app]. change (headings (_ :: _ :: ?l)) with (headings l).
    rewrite Hh. unfold question_cols.
    rewrite elem_of_filter_bool, andb_true_iff, !negb_true_iff,
      bool_decide_eq_false, String.eqb_neq. tauto.
  - cbn [app]. by repeat constructor.
Qed.

(** X13: the two sample sizes shown are the number of rows of the loaded
    frame and the number of rows left by the filters; the second is never
    larger than the first, and they are equal when no demographic value is
    selected. *)
Theorem run_app_sample_sizes (selection : string → list string) (loaded : DataFrame)
    (shown_widgets : widgets) (page : list element) :
  run_app selection loaded = Some (shown_widgets, page) →
  ∃ filtered_size rest,
    page = Metric "Total responses" (length (rows loaded))
           :: Metric "Filtered responses" filtered_size :: rest
    ∧ (filtered_size ≤ length (rows loaded))%nat
    ∧ ((∀ col, col ∈ DEMOGRAPHIC_COLS → selection col = []) →
       filtered_size = length (rows loaded)).
Proof.
  intros Hpage.
  destruct (run_app_run selection loaded)
    as (df & st & view & sections & Hrun & _ & Hlen & _ & _ & _ & Hrows & _).
  rewrite Hrun in Hpage. injection Hpage as <- <-.
  eexists _, _. rewrite Hlen. split; [reflexivity|]. rewrite Hrows, <- Hlen. split.
  - apply List.filter_length_le.
  - intros Hnone. rewrite filter_all; [done|]. intros row.
    apply survivesb_spec. intros col i Hcol _ Hsel. by destruct Hsel; apply Hnone.
Qed.

(** The small survey with the constraint Male: four rows, two left. *)
Lemma run_app_sample_sizes_witness :
  ∃ filtered_size rest,
    [Metric "Total responses" 4; Metric "Filtered responses" 2;
     Heading assessment_question;
     BarChart [mkFreqRow "Yes" 1 500; mkFreqRow "other" 1 500];
     Heading FRUSTRATION_QUESTION;
     ThemesTable [("Time constraints", 1000%Z)];
     ResponsesTable ["No time at all"]; TotalResponses 1]
    = Metric "Total responses" (length (rows small_survey))
      :: Metric "Filtered responses" filtered_size :: rest
    ∧ (filtered_size ≤ length (rows small_survey))%nat
    ∧ ((∀ col, col ∈ DEMOGRAPHIC_COLS → only_male col = []) →
       filtered_size = length (rows small_survey)).
Proof.
  apply (run_app_sample_sizes only_male small_survey
           [(gender_question, ["Male"; "Female"; "Prefer not to say"])]).
  vm_compute. reflexivity.
Defined.

(** ** Counts after filtering *)

Lemma filter_bool_sublist_mono {A} (P : A → bool) l1 l2 :
  l1 `sublist_of` l2 → List.filter P l1 `sublist_of` List.filter P l2.
Proof.
  induction 1 as [|x l1 l2 _ IH|x l1 l2 _ IH]; simpl; [constructor| |].
  - destruct (P x); [by constructor | done].
  - destruct (P x); [by constructor | done].
Qed.

Lemma map_sublist {A B} (f : A → B) l1 l2 :
  l1 `sublist_of` l2 → map f l1 `sublist_of` map f l2.
Proof. induction 1; simpl; by constructor. Qed.

Lemma flat_map_sublist {A B} (f : A → list B) l1 l2 :
  l1 `sublist_of` l2 → flat_map f l1 `sublist_of` flat_map f l2.
Proof.
  induction 1 as [|x l1 l2 _ IH|x l1 l2 _ IH]; simpl; [constructor| |].
  - by apply sublist_app.
  - apply (sublist_app [] (f x)); [apply sublist_nil_l | done].
Qed.

Lemma occurrences_sublist k l1 l2 :
  l1 `sublist_of` l2 → (occurrences k l1 ≤ occurrences k l2)%Z.
Proof.
  intros H. unfold occurrences.
  apply inj_le, sublist_length. by apply filter_bool_sublist_mono.
Qed.

(** Fewer cells give fewer tokens, whatever the kind of the question. *)
Lemma question_tokens_sublist allowed_map multi df df' col s s' tokens tokens' :
  get_column df col = Some s → get_column df' col = Some s' →
  s' `sublist_of` s →
  question_tokens allowed_map multi df col = Some tokens →
  question_tokens allowed_map multi df' col = Some tokens' →
  tokens' `sublist_of` tokens.
Proof.
  intros Hs Hs' Hsub. unfold question_tokens. rewrite Hs, Hs'.
  assert (∀ allowed, explode_multiselect s' allowed
                     `sublist_of` explode_multiselect s allowed) as Hex.
  { intros allowed. rewrite !explode_multiselect_flat.
    apply flat_map_sublist, map_sublist. unfold dropna.
    by apply filter_bool_sublist_mono. }
  case_bool_decide; destruct (allowed_map !! col) as [allowed|];
    cbn [mbind option_bind]; intros [= <-] [= <-]; try apply Hex;
    by apply filter_bool_sublist_mono, map_sublist.
Qed.

(** X15: filtering never raises a count: in the table of any question
    computed on the filtered collection, every answer also has a row in the
    table computed on the input, with a count at least as large; and the
    total of the counts is no larger. *)
Theorem filtered_counts_decrease (selection : string → list string) (h : store)
    (r : ref) (df df' : DataFrame) (st : filter_state) (col : string)
    (table table' : list freq_row) :
  h !! r = Some df →
  apply_demographic_filters selection r h = Some st →
  heap st !! filtered st = Some df' →
  frequency_for_question df col = Some table →
  frequency_for_question df' col = Some table' →
  (∀ row', row' ∈ table' →
     ∃ row, row ∈ table ∧ answer row = answer row' ∧ (count row' ≤ count row)%Z)
  ∧ (sum_counts table' ≤ sum_counts table)%Z.
Proof.
  intros Hdf Hrun Hdf'.
  destruct (apply_demographic_filters_run selection h r df Hdf)
    as (st0 & df0 & E & _ & _ & L & Hc & Hrows).
  rewrite E in Hrun. injection Hrun as <-.
  rewrite L in Hdf'. injection Hdf' as <-.
  unfold frequency_for_question. generalize ALLOWED MULTI_SELECT.
  intros allowed_map multi Hf Hf'.
  destruct (proj1 (frequency_for_question_total allowed_map multi df col))
    as [s Hs]; [by exists table|].
  destruct (proj1 (frequency_for_question_total allowed_map multi df0 col))
    as [s' Hs']; [by exists table'|].
  destruct (frequency_table_rows_with _ _ _ _ _ Hf)
    as (tokens & Ht & _ & _ & _ & Hsum & Hcount & Hans).
  destruct (frequency_table_rows_with _ _ _ _ _ Hf')
    as (tokens' & Ht' & _ & _ & _ & Hsum' & Hcount' & Hans').
  assert (tokens' `sublist_of` tokens) as Hsub.
  { eapply (question_tokens_sublist _ _ df df0); [done | done | | done | done].
    unfold get_column in Hs, Hs'. rewrite Hc in Hs'.
    destruct (index_of col (columns df)) as [i|]; [|done].
    injection Hs as <-. injection Hs' as <-. rewrite Hrows.
    apply map_sublist, filter_bool_sublist. }
  split.
  - intros row' Hrow'.
    assert (answer row' ∈ tokens) as Hin.
    { eapply elem_of_sublist; [|exact Hsub]. apply Hans', list_elem_of_fmap. by exists row'. }
    apply Hans, list_elem_of_fmap in Hin as (row & Heq & Hrow).
    exists row. split; [done|]. split; [done|].
    rewrite (Hcount' _ Hrow'), (Hcount _ Hrow), <- Heq.
    by apply occurrences_sublist.
  - rewrite Hsum, Hsum'. apply inj_le. by apply sublist_length.
Qed.

(** The assessment question of the small survey, before and after the
    constraint Male. *)
Lemma filtered_counts_decrease_witness :
  (∀ row', row' ∈ [mkFreqRow "Yes" 1 500; mkFreqRow "other" 1 500] →
     ∃ row, row ∈ [mkFreqRow "Yes" 2 500; mkFreqRow "No" 1 250; mkFreqRow "other" 1 250]
            ∧ answer row = answer row' ∧ (count row' ≤ count row)%Z)
  ∧ (sum_counts [mkFreqRow "Yes" 1 500; mkFreqRow "other" 1 500]
     ≤ sum_counts [mkFreqRow "Yes" 2 500; mkFreqRow "No" 1 250; mkFreqRow "other" 1 250])%Z.
Proof.
  eapply (filtered_counts_decrease only_male [small_survey] 0 small_survey _ _
            assessment_question).
  - reflexivity.
  - vm_compute. reflexivity.
  - vm_compute. reflexivity.
  - vm_compute. reflexivity.
  - vm_compute. reflexivity.
Defined.

(** ** What a multi-select token can be *)

Lemma lstrip_chars c s :
  c ∈ list_ascii_of_string (PyStr.lstrip s) → c ∈ list_ascii_of_string s.
Proof.
  induction s as [|a s IH]; simpl; [done|].
  destruct (PyStr.isspace a); [|done].
  intros H. apply list_elem_of_further. by apply IH.
Qed.

Lemma rstrip_chars c s :
  c ∈ list_ascii_of_string (PyStr.rstrip s) → c ∈ list_ascii_of_string s.
Proof.
  induction s as [|a s IH]; simpl; [done|].
  destruct (PyStr.rstrip s) as [|b r] eqn:E.
  - destruct (PyStr.isspace a); simpl; [by intros ?%elem_of_nil|].
    intros [->|H]%elem_of_cons; [apply list_elem_of_here | by apply elem_of_nil in H].
  - change (list_ascii_of_string (String a (String b r)))
      with (a :: list_ascii_of_string (String b r)).
    intros [->|H]%elem_of_cons; [apply list_elem_of_here|].
    apply list_elem_of_further. by apply IH.
Qed.

Lemma strip_chars c s :
  c ∈ list_ascii_of_string (PyStr.strip s) → c ∈ list_ascii_of_string s.
Proof. unfold PyStr.strip. intros H. by apply lstrip_chars, rstrip_chars. Qed.

Lemma split_parts_no_comma raw p :
  p ∈ split_parts raw → ","%char ∉ list_ascii_of_string p.
Proof.
  unfold split_parts. intros [Hin _]%elem_of_filter_bool.
  apply list_elem_of_fmap in Hin as (q & -> & Hq).
  intros Hc%strip_chars. by apply (PyStrFacts.split_no_sep _ _ _ Hq).
Qed.

Lemma dropna_app s1 s2 : dropna (s1 ++ s2) = dropna s1 ++ dropna s2.
Proof. apply List.filter_app. Qed.

(** X14: the expansion of two series put end to end is the expansion of
    the first followed by that of the second; and every token it yields is
    not empty, carries no outer white space, holds no comma, and is a
    permitted answer or ["other"]: a permitted answer that contains a comma
    can therefore never be counted for a multi-select question. *)
Theorem explode_multiselect_tokens_clean (s1 s2 : series) (allowed : list string) :
  explode_multiselect (s1 ++ s2) allowed
  = explode_multiselect s1 allowed ++ explode_multiselect s2 allowed
  ∧ (∀ t, t ∈ explode_multiselect s1 allowed →
       t ≠ ""
       ∧ PyStr.strip t = t
       ∧ (","%char ∉ list_ascii_of_string t)
       ∧ (t ∈ allowed ∨ t = OTHER_LABEL)).
Proof.
  split.
  - rewrite !explode_multiselect_flat, dropna_app, map_app. apply flat_map_app.
  - intros t. rewrite explode_multiselect_flat, list_elem_of_In, in_flat_map.
    intros (raw & _ & (p & <- & Hp%list_elem_of_In)%in_map_iff).
    pose proof (split_parts_no_comma _ _ Hp) as Hcomma.
    apply split_parts_trimmed in Hp as [Hp Hne].
    rewrite bucket_value_trimmed by done. case_bool_decide.
    + split; [done|]. split; [done|]. split; [done | by left].
    + split; [done|]. split; [reflexivity|]. split; [|by right].
      apply (bool_decide_unpack _). vm_compute. exact I.
Qed.

(** A permitted answer with a comma is cut in two and counted as "other"
    twice. *)
Example explode_multiselect_comma :
  explode_multiselect [Str "$500-$1,500"] ["$500-$1,500"; "0"] = ["other"; "other"].
Proof. vm_compute. reflexivity. Qed.

(** ** The cast of the identifier column *)



